(** * Text-to-SQL converter: a shallow embedding of [src/helper.py]

    The development follows [TextToSQLConverter] method by method.
    Python strings are modelled as [string] (8-bit characters).  The
    character classes [\s], [\w], [\d] and the functions [str.lower],
    [str.upper] and [str.strip] are given their behaviour on the ASCII
    range, where they agree with Python's; outside of it Python follows the
    Unicode tables (a non-ASCII decimal digit matches [\d], [str.upper] can
    map a non-ASCII letter to an ASCII one).  The statements on the limit
    phrase, on letter case and on the causes of a failed translation carry
    the hypothesis [ascii_text] or [ascii_doc], which restricts them to the
    inputs on which the embedding is exact.  [int] has the cap of CPython on
    the number of digits it converts.
    Python [set] objects are modelled by
    their insertion history (a duplicate-free list) together with an
    iteration order [iter], a parameter of the development: CPython fixes
    the iteration order of a set of strings only up to the per-process hash
    seed.  The spaCy pipeline [self.nlp] is a field of the converter. *)

From Stdlib Require Import String Ascii List Bool Arith NArith Lia Permutation.
From Stdlib Require Import Decimal DecimalString DecimalN.
Import ListNotations.
Open Scope list_scope.
Open Scope string_scope.

(** ** Python string primitives *)

Module PyStr.

Definition nl : string := String "010"%char "".

Definition code (c : ascii) : nat := nat_of_ascii c.

Definition between_codes (lo hi : nat) (c : ascii) : bool :=
  ((lo <=? code c)%nat && (code c <=? hi)%nat)%bool.

(** [str.isspace] on the ASCII range: TAB..CR, FS..US and the blank. *)
Definition is_space (c : ascii) : bool :=
  between_codes 9 13 c || between_codes 28 32 c.

(** [\d] on the ASCII range ([0-9]); Python's also matches the decimal
    digits of other scripts. *)
Definition is_digit (c : ascii) : bool := between_codes 48 57 c.

Definition is_upper (c : ascii) : bool := between_codes 65 90 c.

Definition is_lower (c : ascii) : bool := between_codes 97 122 c.

(** [\w] on the ASCII range. *)
Definition is_word (c : ascii) : bool :=
  is_digit c || is_upper c || is_lower c || (code c =? 95)%nat.

Definition lower_char (c : ascii) : ascii :=
  if is_upper c then ascii_of_nat (code c + 32) else c.

Definition upper_char (c : ascii) : ascii :=
  if is_lower c then ascii_of_nat (code c - 32) else c.

Fixpoint map_str (f : ascii -> ascii) (s : string) : string :=
  match s with
  | EmptyString => EmptyString
  | String c s' => String (f c) (map_str f s')
  end.

(** [str.lower] and [str.upper] on the ASCII letters; every other character
    is kept as it is, where Python follows the Unicode case mappings. *)
Definition lower (s : string) : string := map_str lower_char s.
Definition upper (s : string) : string := map_str upper_char s.

(** [strip_prefix p s] is [Some r] when [s = p ++ r]. *)
Fixpoint strip_prefix (p s : string) : option string :=
  match p with
  | EmptyString => Some s
  | String a p' =>
      match s with
      | EmptyString => None
      | String b s' => if Ascii.eqb a b then strip_prefix p' s' else None
      end
  end.

Definition starts_with (p s : string) : bool :=
  match strip_prefix p s with Some _ => true | None => false end.

(** Python's [sub in s]. *)
Fixpoint contains (sub s : string) : bool :=
  starts_with sub s ||
  match s with
  | EmptyString => false
  | String _ s' => contains sub s'
  end.

(** [s.split(sep)] for a non-empty separator: the pieces between the
    non-overlapping occurrences of [sep], scanned from the left.  [skip]
    counts the characters of a separator still to be passed over, [cur]
    is the piece being collected. *)
Fixpoint split_go (sep s : string) (skip : nat) (cur : string) : list string :=
  match s with
  | EmptyString => [cur]
  | String c s' =>
      match skip with
      | S k => split_go sep s' k cur
      | O =>
          if starts_with sep s
          then cur :: split_go sep s' (String.length sep - 1) ""
          else split_go sep s' 0 (cur ++ String c "")
      end
  end.

Definition split (sep s : string) : list string := split_go sep s 0 "".

Fixpoint lstrip (s : string) : string :=
  match s with
  | EmptyString => EmptyString
  | String c s' => if is_space c then lstrip s' else s
  end.

Fixpoint rstrip (s : string) : string :=
  match s with
  | EmptyString => EmptyString
  | String c s' =>
      match rstrip s' with
      | EmptyString => if is_space c then EmptyString else String c EmptyString
      | r => String c r
      end
  end.

Definition strip (s : string) : string := rstrip (lstrip s).

(** [sep.join(l)] *)
Definition join (sep : string) (l : list string) : string := String.concat sep l.

(** The longest prefix whose characters satisfy [p], and what follows. *)
Fixpoint span (p : ascii -> bool) (s : string) : string * string :=
  match s with
  | EmptyString => (EmptyString, EmptyString)
  | String c s' =>
      if p c then let (a, b) := span p s' in (String c a, b)
      else (EmptyString, s)
  end.

Fixpoint all_chars (p : ascii -> bool) (s : string) : bool :=
  match s with
  | EmptyString => true
  | String c s' => p c && all_chars p s'
  end.

Definition is_empty (s : string) : bool :=
  match s with EmptyString => true | _ => false end.

(** The value of a run of ASCII digits (Python integers are unbounded). *)
Definition digit_val (c : ascii) : N := N.of_nat (code c - 48).

Fixpoint int_go (acc : N) (s : string) : N :=
  match s with
  | EmptyString => acc
  | String c s' => int_go (acc * 10 + digit_val c)%N s'
  end.

Definition int_value (s : string) : N := int_go 0%N s.

(** [str(n)] for a non-negative integer. *)
Definition str (n : N) : string := NilZero.string_of_uint (N.to_uint n).

(** The characters on which the classes above are Python's. *)
Definition is_ascii (c : ascii) : bool := (code c <? 128)%nat.

(** [s.isascii()] *)
Definition ascii_text (s : string) : Prop := all_chars is_ascii s = true.

End PyStr.

Import PyStr.

(** ** Python values: exceptions, dictionaries, sets *)

Inductive PyExc : Type :=
| IndexError (msg : string)
| KeyError (key : string)
| ValueError (msg : string).

(** [str(e)]: a [KeyError] prints the [repr] of its key. *)
Definition str_exc (e : PyExc) : string :=
  match e with
  | IndexError m => m
  | KeyError k => "'" ++ k ++ "'"
  | ValueError m => m
  end.

Inductive result (A : Type) : Type :=
| Ok (a : A)
| Raise (e : PyExc).

Arguments Ok {A} a.
Arguments Raise {A} e.

Definition bind {A B : Type} (r : result A) (k : A -> result B) : result B :=
  match r with
  | Ok a => k a
  | Raise e => Raise e
  end.

Notation "x <- r ;; k" := (bind r (fun x => k))
  (at level 61, r at next level, right associativity).

(** A [for] loop whose body may raise. *)
Fixpoint for_each {A S : Type} (l : list A) (body : A -> S -> result S) (s : S)
  : result S :=
  match l with
  | [] => Ok s
  | a :: l' => s' <- body a s ;; for_each l' body s'
  end.

(** [l[i]] *)
Definition index {A : Type} (l : list A) (i : nat) : result A :=
  match nth_error l i with
  | Some a => Ok a
  | None => Raise (IndexError "list index out of range")
  end.

(** Dictionaries keep insertion order; keys are unique. *)
Definition dict (V : Type) : Type := list (string * V).

Definition dict_keys {V : Type} (d : dict V) : list string := map fst d.

Fixpoint dict_get {V : Type} (d : dict V) (k : string) : option V :=
  match d with
  | [] => None
  | (k', v) :: d' => if String.eqb k' k then Some v else dict_get d' k
  end.

(** [d[k]] *)
Definition getitem {V : Type} (d : dict V) (k : string) : result V :=
  match dict_get d k with
  | Some v => Ok v
  | None => Raise (KeyError k)
  end.

(** [sys.int_info.default_max_str_digits]: CPython refuses to convert a
    decimal string of more digits to an integer. *)
Definition int_max_str_digits : nat := 4300.

Definition int_limit_error (s : string) : PyExc :=
  ValueError
    ("Exceeds the limit (" ++ str (N.of_nat int_max_str_digits)
       ++ " digits) for integer string conversion: value has "
       ++ str (N.of_nat (String.length s))
       ++ " digits; use sys.set_int_max_str_digits() to increase the limit").

(** [int(s)] on a run of ASCII digits; leading zeros count as digits. *)
Definition int (s : string) : result N :=
  if (String.length s <=? int_max_str_digits)%nat
  then Ok (int_value s)
  else Raise (int_limit_error s).

#[global] Arguments int : simpl never.

(** [k in d] *)
Definition dict_mem {V : Type} (k : string) (d : dict V) : bool :=
  match dict_get d k with Some _ => true | None => false end.

(** [x in l] for a list or a set of strings. *)
Definition mem (x : string) (l : list string) : bool := existsb (String.eqb x) l.

(** A set of strings, as the sequence of its first insertions. *)
Definition pyset : Type := list string.

Definition set_add (x : string) (s : pyset) : pyset :=
  if mem x s then s else (s ++ [x])%list.

(** ** The annotated tokens of spaCy *)

#[local] Unset Elimination Schemes.
Inductive Token : Type :=
| mkToken (text : string) (dep_ : string) (rights : list Token).
#[local] Set Elimination Schemes.

Definition text (t : Token) : string := let 'mkToken x _ _ := t in x.
Definition dep_ (t : Token) : string := let 'mkToken _ d _ := t in d.
Definition rights (t : Token) : list Token := let 'mkToken _ _ r := t in r.

Record Doc : Type := mkDoc {
  doc_text : string;
  doc_tokens : list Token
}.

(** ** The converter object *)

Record JoinInfo : Type := mkJoinInfo {
  rel_type : string;
  through : option string;
  keys : list string
}.

Record ColumnMeta : Type := mkColumnMeta {
  col_type : string;
  primary_key : option bool;
  nullable : option bool;
  unique : option bool;
  foreign_key : option string;
  check : option (list string)
}.

Record SelectPatterns : Type := mkSelectPatterns {
  keywords : list string;
  regex : string
}.

Record Patterns : Type := mkPatterns {
  pat_select : SelectPatterns;
  pat_aggregate : dict (list string);
  pat_conditions : dict (list string);
  pat_order : dict (list string)
}.

Record Converter : Type := mkConverter {
  nlp : string -> Doc;
  db_schema : option string;
  table_relationships : dict (dict JoinInfo);
  table_columns : dict (dict ColumnMeta);
  patterns : Patterns
}.

(** [TextToSQLConverter.__init__] *)
Definition TextToSQLConverter (spacy_load : string -> Doc)
  (schema : option string) : Converter :=
  {| nlp := spacy_load;
     db_schema := schema;
     table_relationships :=
       [ ("employees",
           [ ("departments", mkJoinInfo "many_to_one" None ["department"; "name"]);
             ("projects",
               mkJoinInfo "many_to_many" (Some "departments") ["department"; "name"]) ]);
         ("departments",
           [ ("employees", mkJoinInfo "one_to_many" None ["name"; "department"]);
             ("projects",
               mkJoinInfo "one_to_many" None ["department_id"; "department_id"]) ]);
         ("projects",
           [ ("departments",
               mkJoinInfo "many_to_one" None ["department_id"; "department_id"]);
             ("employees",
               mkJoinInfo "many_to_many" (Some "departments")
                 ["department_id"; "department_id"]) ]) ];
     table_columns :=
       [ ("employees",
           [ ("employee_id", mkColumnMeta "INTEGER" (Some true) None None None None);
             ("name", mkColumnMeta "TEXT" None (Some false) None None None);
             ("department", mkColumnMeta "TEXT" None (Some false) None None None);
             ("salary", mkColumnMeta "REAL" None (Some false) None None None);
             ("hire_date", mkColumnMeta "DATE" None (Some false) None None None);
             ("role", mkColumnMeta "TEXT" None (Some true) None None None);
             ("email", mkColumnMeta "TEXT" None None (Some true) None None) ]);
         ("departments",
           [ ("department_id", mkColumnMeta "INTEGER" (Some true) None None None None);
             ("name", mkColumnMeta "TEXT" None (Some false) (Some true) None None);
             ("budget", mkColumnMeta "REAL" None (Some false) None None None);
             ("location", mkColumnMeta "TEXT" None (Some true) None None None);
             ("head_id",
               mkColumnMeta "INTEGER" None None None (Some "employees.employee_id") None) ]);
         ("projects",
           [ ("project_id", mkColumnMeta "INTEGER" (Some true) None None None None);
             ("name", mkColumnMeta "TEXT" None (Some false) None None None);
             ("department_id",
               mkColumnMeta "INTEGER" None None None
                 (Some "departments.department_id") None);
             ("start_date", mkColumnMeta "DATE" None (Some false) None None None);
             ("end_date", mkColumnMeta "DATE" None (Some true) None None None);
             ("budget", mkColumnMeta "REAL" None (Some false) None None None);
             ("status",
               mkColumnMeta "TEXT" None None None None
                 (Some ["Planning"; "Active"; "Completed"; "On Hold"])) ]) ];
     patterns :=
       {| pat_select :=
            mkSelectPatterns
              ["show"; "list"; "display"; "get"; "find"; "what"; "which"; "who"]
              "(?:show|list|display|get|find|what|which|who)\s+(?:are|is|the)?";
          pat_aggregate :=
            [ ("avg", ["average"; "mean"; "typical"]);
              ("sum", ["total"; "sum"; "combined"]);
              ("count", ["count"; "number of"; "how many"]);
              ("max", ["highest"; "maximum"; "most"; "top"]);
              ("min", ["lowest"; "minimum"; "least"; "bottom"]) ];
          pat_conditions :=
            [ ("equals", ["is"; "equals"; "equal to"; "="]);
              ("greater", ["greater than"; "more than"; "over"; "above"; ">"]);
              ("less", ["less than"; "under"; "below"; "<"]);
              ("between", ["between"; "from"; "range"]);
              ("like", ["like"; "contains"; "similar to"]) ];
          pat_order :=
            [ ("asc", ["ascending"; "increasing"; "smallest first"]);
              ("desc", ["descending"; "decreasing"; "largest first"; "highest first"]) ]
       |}
  |}.

(** ** The intent accumulator of [_parse_query] *)

Record Select : Type := mkSelect {
  tables : pyset;
  columns : pyset
}.

Record Condition : Type := mkCondition {
  column : string;
  operator : string;
  value : string
}.

Record Aggregate : Type := mkAggregate {
  function : string;
  agg_column : string
}.

Record OrderItem : Type := mkOrderItem {
  ord_column : string;
  direction : string
}.

Record Components : Type := mkComponents {
  select : Select;
  joins : list string;
  where_ : list Condition;
  group_by : list string;
  having : list string;
  order_by : list OrderItem;
  limit : option N;
  aggregates : list Aggregate
}.

Definition empty_components : Components :=
  mkComponents (mkSelect [] []) [] [] [] [] [] None [].

Definition add_table (t : string) (s : Select) : Select :=
  mkSelect (set_add t (tables s)) (columns s).

Definition add_column (c : string) (s : Select) : Select :=
  mkSelect (tables s) (set_add c (columns s)).

Definition with_select (s : Select) (c : Components) : Components :=
  mkComponents s (joins c) (where_ c) (group_by c) (having c) (order_by c)
    (limit c) (aggregates c).

Definition with_where (w : list Condition) (c : Components) : Components :=
  mkComponents (select c) (joins c) w (group_by c) (having c) (order_by c)
    (limit c) (aggregates c).

Definition with_group_by (g : list string) (c : Components) : Components :=
  mkComponents (select c) (joins c) (where_ c) g (having c) (order_by c)
    (limit c) (aggregates c).

Definition with_order_by (o : list OrderItem) (c : Components) : Components :=
  mkComponents (select c) (joins c) (where_ c) (group_by c) (having c) o
    (limit c) (aggregates c).

Definition with_limit (l : option N) (c : Components) : Components :=
  mkComponents (select c) (joins c) (where_ c) (group_by c) (having c)
    (order_by c) l (aggregates c).

Definition with_aggregates (a : list Aggregate) (c : Components) : Components :=
  mkComponents (select c) (joins c) (where_ c) (group_by c) (having c)
    (order_by c) (limit c) a.

(** [f"{table}.{column}"] *)
Definition qualified (table column : string) : string :=
  table ++ "." ++ column.

(** ** The regular expressions of the extraction passes

    Each pattern is matched the way [re] does, leftmost position first.
    Within one position the greedy runs [\s+], [\w+], [\d+] are always
    followed by a character of another class (or by an optional part), so
    the first greedy attempt decides; the only place where giving back is
    possible, the optional [ed], is tried both ways. *)

Module Re.

Definition first_some {A : Type} (a b : option A) : option A :=
  match a with Some _ => a | None => b end.

(** [by\s+(\w+)] at the head of [s]: the captured word and what follows. *)
Definition by_match_here (s : string) : option (string * string) :=
  match strip_prefix "by" s with
  | None => None
  | Some r =>
      let (ws, r1) := span is_space r in
      if is_empty ws then None
      else
        let (w, r2) := span is_word r1 in
        if is_empty w then None else Some (w, r2)
  end.

(** [re.findall(r'by\s+(\w+)', s)]: [skip] counts the characters of the
    last match that are still to be passed over. *)
Fixpoint findall_by_go (s : string) (skip : nat) : list string :=
  match s with
  | EmptyString => []
  | String _ s' =>
      match skip with
      | S k => findall_by_go s' k
      | O =>
          match by_match_here s with
          | Some (w, r) =>
              w :: findall_by_go s' (String.length s - String.length r - 1)
          | None => findall_by_go s' 0
          end
      end
  end.

Definition findall_by (s : string) : list string := findall_by_go s 0.

(** [(desc(?:ending)?|asc(?:ending)?)?] at the head of [s]. *)
Definition with_ending (w r : string) : string :=
  if starts_with "ending" r then w ++ "ending" else w.

Definition order_modifier (s : string) : option string :=
  match strip_prefix "desc" s with
  | Some r => Some (with_ending "desc" r)
  | None =>
      match strip_prefix "asc" s with
      | Some r => Some (with_ending "asc" r)
      | None => None
      end
  end.

(** [\s+by\s+(\w+)\s*(desc(?:ending)?|asc(?:ending)?)?] at the head of [s]:
    groups 1 and 2. *)
Definition order_tail (s : string) : option (string * option string) :=
  let (ws1, r1) := span is_space s in
  if is_empty ws1 then None
  else
    match strip_prefix "by" r1 with
    | None => None
    | Some r2 =>
        let (ws2, r3) := span is_space r2 in
        if is_empty ws2 then None
        else
          let (w, r4) := span is_word r3 in
          if is_empty w then None
          else let (_, r5) := span is_space r4 in Some (w, order_modifier r5)
    end.

Definition order_match_here (s : string) : option (string * option string) :=
  match first_some (strip_prefix "order" s) (strip_prefix "sort" s) with
  | None => None
  | Some r =>
      match strip_prefix "ed" r with
      | Some r' => first_some (order_tail r') (order_tail r)
      | None => order_tail r
      end
  end.

(** [re.search] for the ordering pattern. *)
Fixpoint search_order (s : string) : option (string * option string) :=
  match order_match_here s with
  | Some m => Some m
  | None =>
      match s with
      | EmptyString => None
      | String _ s' => search_order s'
      end
  end.

(** [(?:top|first|limit)\s+(\d+)] at the head of [s]: group 1. *)
Definition limit_match_here (s : string) : option string :=
  match first_some (strip_prefix "top" s)
          (first_some (strip_prefix "first" s) (strip_prefix "limit" s)) with
  | None => None
  | Some r =>
      let (ws, r1) := span is_space r in
      if is_empty ws then None
      else
        let (d, _) := span is_digit r1 in
        if is_empty d then None else Some d
  end.

(** [re.search] for the limit pattern. *)
Fixpoint search_limit (s : string) : option string :=
  match limit_match_here s with
  | Some d => Some d
  | None =>
      match s with
      | EmptyString => None
      | String _ s' => search_limit s'
      end
  end.

End Re.

(** ** The methods of [TextToSQLConverter] *)

Section Methods.

Variable self : Converter.

(** The order in which the running interpreter iterates over a set. *)
Variable iter : pyset -> list string.

(** *** [_extract_entities] *)

Definition table_matches (table tok : string) : bool :=
  contains (lower table) (lower tok) || contains (lower tok) (lower table).

Definition column_matches (column tok : string) : bool :=
  contains (lower column) (lower tok).

Definition scan_tables (token : Token) (s : Select) : Select :=
  fold_left
    (fun s table =>
       if table_matches table (text token) then add_table table s else s)
    (dict_keys (table_columns self)) s.

Definition scan_table_columns (token : Token) (table : string)
  (cols : list string) (s : Select) : Select :=
  fold_left
    (fun s column =>
       if column_matches column (text token)
       then add_table table (add_column (qualified table column) s)
       else s)
    cols s.

Definition scan_columns (token : Token) (s : Select) : Select :=
  fold_left
    (fun s entry => scan_table_columns token (fst entry) (dict_keys (snd entry)) s)
    (table_columns self) s.

(** The loop over the tokens. *)
Definition scan_entities (doc : Doc) (s : Select) : Select :=
  fold_left (fun s token => scan_columns token (scan_tables token s))
    (doc_tokens doc) s.

Definition add_all_columns (table : string) (cols : list string) (s : Select)
  : Select :=
  fold_left (fun s column => add_column (qualified table column) s) cols s.

(** The select-all fallback. *)
Definition select_all (s : Select) : result Select :=
  for_each (iter (tables s))
    (fun table s =>
       cols <- getitem (table_columns self) table ;;
       Ok (add_all_columns table (dict_keys cols) s))
    s.

Definition _extract_entities (doc : Doc) (components : Components)
  : result Components :=
  let s := scan_entities doc (select components) in
  match columns s with
  | [] => s' <- select_all s ;; Ok (with_select s' components)
  | _ :: _ => Ok (with_select s components)
  end.

(** *** [_parse_condition_phrase] *)

Fixpoint try_patterns (op_type phrase : string) (pats : list string)
  : option Condition :=
  match pats with
  | [] => None
  | pattern :: rest =>
      if contains pattern phrase
      then
        match split pattern phrase with
        | [lhs; rhs] => Some (mkCondition (strip lhs) op_type (strip rhs))
        | _ => try_patterns op_type phrase rest
        end
      else try_patterns op_type phrase rest
  end.

Fixpoint try_operators (phrase : string) (ops : dict (list string))
  : option Condition :=
  match ops with
  | [] => None
  | (op_type, pats) :: rest =>
      match try_patterns op_type phrase pats with
      | Some c => Some c
      | None => try_operators phrase rest
      end
  end.

Definition _parse_condition_phrase (token : Token) : option Condition :=
  let phrase := join " " (map text (rights token)) in
  try_operators phrase (pat_conditions (patterns self)).

(** *** [_extract_conditions] *)

Definition is_trigger (token : Token) : bool :=
  mem (dep_ token) ["prep"; "prep_in"] && mem (text token) ["in"; "with"; "where"].

Definition _extract_conditions (doc : Doc) (components : Components)
  : Components :=
  fold_left
    (fun c token =>
       if is_trigger token
       then
         match _parse_condition_phrase token with
         | Some condition => with_where (where_ c ++ [condition])%list c
         | None => c
         end
       else c)
    (doc_tokens doc) components.

(** *** [_extract_aggregations] *)

(** The qualified columns whose name occurs in the text, in schema order. *)
Definition columns_in_text (txt : string) : list string :=
  flat_map
    (fun entry =>
       flat_map
         (fun column =>
            if contains (lower column) txt then [qualified (fst entry) column]
            else [])
         (dict_keys (snd entry)))
    (table_columns self).

Definition aggregates_in_text (txt : string) : list Aggregate :=
  flat_map
    (fun entry =>
       flat_map
         (fun pattern =>
            if contains pattern txt
            then map (mkAggregate (upper (fst entry))) (columns_in_text txt)
            else [])
         (snd entry))
    (pat_aggregate (patterns self)).

Definition group_by_in_text (txt : string) : list string :=
  flat_map
    (fun m =>
       flat_map
         (fun entry =>
            if dict_mem m (snd entry) then [qualified (fst entry) m] else [])
         (table_columns self))
    (Re.findall_by txt).

Definition _extract_aggregations (doc : Doc) (components : Components)
  : Components :=
  let txt := lower (doc_text doc) in
  let c := with_aggregates
             (aggregates components ++ aggregates_in_text txt)%list components in
  with_group_by (group_by c ++ group_by_in_text txt)%list c.

(** *** [_extract_ordering] *)

Definition order_direction (modifier : option string) : string :=
  match modifier with
  | Some g => if contains "desc" g then "DESC" else "ASC"
  | None => "ASC"
  end.

Definition order_entries (column dir : string) : list OrderItem :=
  flat_map
    (fun entry =>
       if dict_mem column (snd entry)
       then [mkOrderItem (qualified (fst entry) column) dir]
       else [])
    (table_columns self).

Definition _extract_ordering (doc : Doc) (components : Components)
  : Components :=
  let txt := lower (doc_text doc) in
  match Re.search_order txt with
  | Some (column, modifier) =>
      with_order_by
        (order_by components ++ order_entries column (order_direction modifier))%list
        components
  | None => components
  end.

(** *** [_extract_limits] *)

Definition _extract_limits (doc : Doc) (components : Components)
  : result Components :=
  let txt := lower (doc_text doc) in
  match Re.search_limit txt with
  | Some digits =>
      n <- int digits ;;
      Ok (with_limit (Some n) components)
  | None => Ok components
  end.

(** *** [_parse_query] *)

Definition _parse_query (txt : string) : result Components :=
  let doc := nlp self txt in
  c1 <- _extract_entities doc empty_components ;;
  let c2 := _extract_conditions doc c1 in
  let c3 := _extract_aggregations doc c2 in
  let c4 := _extract_ordering doc c3 in
  _extract_limits doc c4.

(** *** [_build_sql_query] *)

(** [agg['column'].split('.')[-1]] *)
Definition last_part (s : string) : string := last (split "." s) "".

Definition render_aggregate (agg : Aggregate) : string :=
  function agg ++ "(" ++ agg_column agg ++ ") as "
    ++ lower (function agg) ++ "_" ++ last_part (agg_column agg).

Definition select_items (components : Components) : list string :=
  match aggregates components with
  | [] => iter (columns (select components))
  | aggs => map render_aggregate aggs
  end.

Definition select_clause (components : Components) : string :=
  "SELECT " ++ join ", " (select_items components) ++ nl.

Definition join_clause (anchor table : string) : result string :=
  rels <- getitem (table_relationships self) anchor ;;
  join_info <- getitem rels table ;;
  k0 <- index (keys join_info) 0 ;;
  k1 <- index (keys join_info) 1 ;;
  Ok ("JOIN " ++ table ++ " ON " ++ anchor ++ "." ++ k0 ++ " = "
        ++ table ++ "." ++ k1 ++ nl).

(** The JOIN lines, one for each table after the anchor. *)
Definition join_clauses (anchor : string) (others : list string)
  : result (list string) :=
  for_each others
    (fun table acc => j <- join_clause anchor table ;; Ok (acc ++ [j])%list) [].

Definition render_condition (condition : Condition) : result (list string) :=
  let c := column condition in
  let v := value condition in
  let op := operator condition in
  if String.eqb op "equals" then Ok [c ++ " = '" ++ v ++ "'"]
  else if String.eqb op "greater" then Ok [c ++ " > " ++ v]
  else if String.eqb op "less" then Ok [c ++ " < " ++ v]
  else if String.eqb op "between" then
    let values := split "and" v in
    v0 <- index values 0 ;;
    v1 <- index values 1 ;;
    Ok [c ++ " BETWEEN " ++ strip v0 ++ " AND " ++ strip v1]
  else if String.eqb op "like" then Ok [c ++ " LIKE '%" ++ v ++ "%'"]
  else Ok [].

Definition render_conditions (conds : list Condition) : result (list string) :=
  for_each conds
    (fun condition acc =>
       r <- render_condition condition ;; Ok (acc ++ r)%list) [].

Definition where_clause (components : Components) : result string :=
  match where_ components with
  | [] => Ok ""
  | conds =>
      conditions <- render_conditions conds ;;
      match conditions with
      | [] => Ok ""
      | _ => Ok ("WHERE " ++ join " AND " conditions ++ nl)
      end
  end.

Definition group_by_clause (components : Components) : string :=
  match group_by components with
  | [] => ""
  | g => "GROUP BY " ++ join ", " g ++ nl
  end.

Definition having_clause (components : Components) : string :=
  match having components with
  | [] => ""
  | h => "HAVING " ++ join " AND " h ++ nl
  end.

Definition render_order (item : OrderItem) : string :=
  ord_column item ++ " " ++ direction item.

Definition order_by_clause (components : Components) : string :=
  match order_by components with
  | [] => ""
  | o => "ORDER BY " ++ join ", " (map render_order o) ++ nl
  end.

(** An absent limit and the limit 0 are both falsy. *)
Definition limit_clause (components : Components) : string :=
  match limit components with
  | Some n => if N.eqb n 0 then "" else "LIMIT " ++ str n
  | None => ""
  end.

Definition _build_sql_query (components : Components) : result string :=
  let query := select_clause components in
  let tbls := iter (tables (select components)) in
  anchor <- index tbls 0 ;;
  let query := query ++ "FROM " ++ anchor ++ nl in
  js <- join_clauses anchor (tl tbls) ;;
  let query := query ++ String.concat "" js in
  w <- where_clause components ;;
  let query := query ++ w in
  let query := query ++ group_by_clause components in
  let query := query ++ having_clause components in
  let query := query ++ order_by_clause components in
  let query := query ++ limit_clause components in
  Ok (strip query).

(** *** [convert_to_sql] *)

Definition convert_to_sql (txt : string) : result string :=
  match (components <- _parse_query (lower txt) ;; _build_sql_query components) with
  | Ok sql => Ok sql
  | Raise e => Raise (ValueError ("Failed to convert text to SQL: " ++ str_exc e))
  end.

End Methods.

(** ** Views of the passes used in the statements *)

Section Views.

Variable self : Converter.
Variable iter : pyset -> list string.

(** What one token adds to [tables]. *)
Definition table_hit (tok t : string) : Prop :=
  (In t (dict_keys (table_columns self)) /\ table_matches t tok = true) \/
  (exists cols column,
      In (t, cols) (table_columns self) /\ In column (dict_keys cols) /\
      column_matches column tok = true).

(** What one token adds to [columns]. *)
Definition column_hit (tok q : string) : Prop :=
  exists t cols column,
    In (t, cols) (table_columns self) /\ In column (dict_keys cols) /\
    column_matches column tok = true /\ q = qualified t column.

(** The [select] entry after [_extract_entities] on a fresh accumulator. *)
Definition entities_select (doc : Doc) : result Select :=
  let s := scan_entities self doc (mkSelect [] []) in
  match columns s with
  | [] => select_all self iter s
  | _ :: _ => Ok s
  end.

(** The conditions appended by [_extract_conditions]. *)
Definition conditions_in_doc (doc : Doc) : list Condition :=
  flat_map
    (fun token =>
       if is_trigger token
       then
         match _parse_condition_phrase self token with
         | Some condition => [condition]
         | None => []
         end
       else [])
    (doc_tokens doc).

(** The entries appended by [_extract_ordering]. *)
Definition order_in_text (txt : string) : list OrderItem :=
  match Re.search_order txt with
  | Some (column, modifier) => order_entries self column (order_direction modifier)
  | None => []
  end.

(** The limit left by [_extract_limits] on a fresh accumulator. *)
Definition limit_in_text (txt : string) : result (option N) :=
  match Re.search_limit txt with
  | Some digits => n <- int digits ;; Ok (Some n)
  | None => Ok None
  end.

(** The limit pattern matches no digit run beyond the cap of [int]. *)
Definition limit_within_cap (txt : string) : Prop :=
  forall digits,
    Re.search_limit txt = Some digits ->
    String.length digits <= int_max_str_digits.

(** The analysed text and the texts of the tokens and of their right
    children are ASCII. *)
Definition ascii_doc (doc : Doc) : Prop :=
  ascii_text (doc_text doc) /\
  (forall token,
      In token (doc_tokens doc) ->
      ascii_text (text token) /\
      (forall r, In r (rights token) -> ascii_text (text r))).



(** At offset [k] the text has a keyword of the limit pattern, blanks, and
    the complete digit run [ds]. *)
Definition limit_phrase_at (txt : string) (k : nat) (ds : string) : Prop :=
  exists pre kw ws post,
    txt = pre ++ kw ++ ws ++ ds ++ post /\
    String.length pre = k /\
    In kw ["top"; "first"; "limit"] /\
    ws <> "" /\ all_chars is_space ws = true /\
    ds <> "" /\ all_chars is_digit ds = true /\
    match post with EmptyString => True | String c _ => is_digit c = false end.

(** The phrase handed to the condition patterns. *)
Definition phrase (token : Token) : string :=
  join " " (map text (rights token)).

End Views.

(** ** Sample analyses and iteration orders *)

Definition word (s : string) : Token := mkToken s "" [].

Definition prep (s : string) (children : list Token) : Token :=
  mkToken s "prep" children.

(** An analyser that keeps the text and answers with the given tokens. *)
Definition analysed (tokens : list Token) : string -> Doc :=
  fun s => mkDoc s tokens.

Definition converter (tokens : list Token) : Converter :=
  TextToSQLConverter (analysed tokens) None.


(** An iteration order enumerates the elements of the set, each once. *)
Definition iterates (iter : pyset -> list string) : Prop :=
  forall s : pyset, Permutation (iter s) s.

Definition insertion_order (s : pyset) : list string := s.

(** An intent with the given tables and columns and nothing else. *)
Definition plain_intent (tbls cols : pyset) : Components :=
  with_select (mkSelect tbls cols) empty_components.

Definition reverse_order (s : pyset) : list string := List.rev s.

(** A run of [n] digits 7. *)
Fixpoint sevens (n : nat) : string :=
  match n with
  | O => ""
  | S n' => String "7" (sevens n')
  end.

(** ** The caller: [execute_query] and the history pane of [main.py]

    The Streamlit widgets only display; what the function decides is which
    entry it appends to [st.session_state.query_history] and whether the
    database is asked.  The database ([DatabaseManager.execute_query]) and
    the display of the result are collaborators: each either succeeds or
    raises, and of a raised exception the caller only uses [str(e)]. *)

Record HistoryItem : Type := mkHistoryItem {
  timestamp : string;
  query : string;
  sql : option string;
  error : option string;
  success : bool
}.

(** The session state (the key [query_history] may be absent) and the SQL
    strings handed to the database so far. *)
Record World : Type := mkWorld {
  query_history : option (list HistoryItem);
  sent : list string
}.

(** [if 'query_history' not in st.session_state: ... = []], then [append]. *)
Definition append_history (item : HistoryItem) (w : World) : World :=
  mkWorld
    (Some (match query_history w with
           | Some l => (l ++ [item])%list
           | None => [item]
           end))
    (sent w).

Section Caller.

Variable Frame : Type.

(** [db_manager.execute_query]: the rows, or the text of the exception. *)
Variable db_execute_query : string -> Frame + string.

(** The display of the rows and of the chart: [None] when it goes through,
    the text of the exception otherwise. *)
Variable show_results : Frame -> option string.

Variable converter_ : Converter.
Variable iter : pyset -> list string.

Definition failed (now query_text msg : string) : HistoryItem :=
  mkHistoryItem now query_text None (Some msg) false.

Definition succeeded (now query_text sql_query : string) : HistoryItem :=
  mkHistoryItem now query_text (Some sql_query) None true.

(** [execute_query(query_text, converter, db_manager)]; [now] is the
    reading of the clock when the entry is written. *)
Definition execute_query (now query_text : string) (w : World) : World :=
  match convert_to_sql converter_ iter query_text with
  | Raise e => append_history (failed now query_text (str_exc e)) w
  | Ok sql_query =>
      let w := mkWorld (query_history w) (sent w ++ [sql_query])%list in
      match db_execute_query sql_query with
      | inr msg => append_history (failed now query_text msg) w
      | inl results =>
          match show_results results with
          | Some msg => append_history (failed now query_text msg) w
          | None => append_history (succeeded now query_text sql_query) w
          end
      end
  end.

End Caller.

(** [l[-n:]] *)
Definition last_items {A : Type} (n : nat) (l : list A) : list A :=
  skipn (List.length l - n) l.

(** The entries of the history pane:
    [reversed(st.session_state.query_history[-5:])], nothing when the key is
    absent or the list empty. *)
Definition shown_history (w : World) : list HistoryItem :=
  match query_history w with
  | Some l => List.rev (last_items 5 l)
  | None => []
  end.

(** The patterns of all aggregate functions, in the order they are tried. *)
Definition aggregate_patterns (self : Converter) : list string :=
  flat_map snd (pat_aggregate (patterns self)).

(** ** Notions used in the further properties *)

(** No pattern of the table is the empty string. *)
Definition patterns_nonempty (ops : dict (list string)) : Prop :=
  forall op pats pattern, In (op, pats) ops -> In pattern pats -> pattern <> "".

(** The condition patterns in the order in which they are tried, each with
    its operator. *)
Definition condition_patterns (ops : dict (list string))
  : list (string * string) :=
  flat_map (fun entry => map (pair (fst entry)) (snd entry)) ops.

(** [q] is a column declared in [table_columns], qualified by its table. *)
Definition declared_column (self : Converter) (q : string) : Prop :=
  exists t cols column,
    In (t, cols) (table_columns self) /\ In column (dict_keys cols) /\
    q = qualified t column.

(** [j] is the JOIN line of [table], on the keys declared for the edge from
    [anchor]. *)
Definition join_line (self : Converter) (anchor table j : string) : Prop :=
  exists rels join_info k0 k1 rest,
    dict_get (table_relationships self) anchor = Some rels /\
    dict_get rels table = Some join_info /\
    keys join_info = k0 :: k1 :: rest /\
    j = "JOIN " ++ table ++ " ON " ++ anchor ++ "." ++ k0 ++ " = "
          ++ table ++ "." ++ k1 ++ nl.

(** The operators that [_build_sql_query] renders. *)
Definition known_operator (op : string) : Prop :=
  In op ["equals"; "greater"; "less"; "between"; "like"].

(** The history, empty when the key is absent. *)
Definition history_list (w : World) : list HistoryItem :=
  match query_history w with
  | Some l => l
  | None => []
  end.

(** Every entry that reports success carries an SQL string that was handed
    to the database; every other entry carries an error text and no SQL. *)
Definition history_consistent (w : World) : Prop :=
  forall item,
    In item (history_list w) ->
    if success item
    then (exists s, sql item = Some s /\ In s (sent w)) /\ error item = None
    else sql item = None /\ error item <> None.

(** Case analysis on the comparisons of character codes. *)
Ltac leb_cases :=
  repeat match goal with
    | |- context [(?a <=? ?b)%nat] => destruct (Nat.leb_spec a b)
    | H : context [(?a <=? ?b)%nat] |- _ => destruct (Nat.leb_spec a b)
    end;
  simpl in *; try reflexivity; try discriminate; try lia.


(** ** Facts about the string primitives *)

Module PyStrFacts.

Lemma append_nil_r (s : string) : s ++ "" = s.
Proof. induction s as [|c s IH]; simpl; [reflexivity | now rewrite IH]. Qed.

Lemma append_assoc (s t u : string) : (s ++ t) ++ u = s ++ (t ++ u).
Proof. induction s as [|c s IH]; simpl; [reflexivity | now rewrite IH]. Qed.

Lemma length_append (s t : string) :
  String.length (s ++ t) = String.length s + String.length t.
Proof. induction s as [|c s IH]; simpl; [reflexivity | now rewrite IH]. Qed.

Lemma strip_prefix_app (p r : string) : strip_prefix p (p ++ r) = Some r.
Proof.
  induction p as [|c p IH]; simpl; [reflexivity|].
  now rewrite Ascii.eqb_refl.
Qed.

Lemma strip_prefix_inv (p s r : string) :
  strip_prefix p s = Some r -> s = p ++ r.
Proof.
  revert s; induction p as [|c p IH]; simpl; intros s H.
  - now inversion H.
  - destruct s as [|b s]; [discriminate|].
    destruct (Ascii.eqb c b) eqn:E; [|discriminate].
    apply Ascii.eqb_eq in E; subst b.
    now rewrite (IH s H).
Qed.

Lemma starts_with_app (p r : string) : starts_with p (p ++ r) = true.
Proof. unfold starts_with; now rewrite strip_prefix_app. Qed.

Lemma contains_absent_head (sub s : string) :
  contains sub s = false -> starts_with sub s = false.
Proof.
  destruct s; simpl; intros H; apply orb_false_iff in H; tauto.
Qed.

Lemma contains_cons (sub : string) (c : ascii) (s : string) :
  contains sub s = true -> contains sub (String c s) = true.
Proof. intros H; simpl; rewrite H; apply orb_true_r. Qed.

Lemma contains_app_l (sub pre s : string) :
  contains sub s = true -> contains sub (pre ++ s) = true.
Proof.
  intros H; induction pre as [|c pre IH]; simpl; [exact H|].
  change (pre ++ s) with (append pre s) in *.
  rewrite IH; apply orb_true_r.
Qed.

(** A string in which the separator does not occur is a single piece. *)
Lemma split_go_absent (sep s cur : string) :
  contains sep s = false -> split_go sep s 0 cur = [cur ++ s].
Proof.
  revert cur; induction s as [|c s IH]; intros cur H.
  - simpl; now rewrite append_nil_r.
  - pose proof (contains_absent_head _ _ H) as Hh.
    simpl in H; apply orb_false_iff in H; destruct H as [_ H].
    cbn [split_go]; rewrite Hh, (IH _ H), append_assoc; reflexivity.
Qed.

Lemma split_absent (sep s : string) :
  contains sep s = false -> split sep s = [s].
Proof. intros H; unfold split; now rewrite split_go_absent. Qed.

Lemma rstrip_app (s t : string) :
  rstrip (s ++ t) =
  match rstrip t with
  | EmptyString => rstrip s
  | String c r => s ++ String c r
  end.
Proof.
  induction s as [|a s IH]; simpl.
  - now destruct (rstrip t).
  - rewrite IH; destruct (rstrip t) as [|c r]; [reflexivity|].
    now destruct s.
Qed.


Lemma span_all (p : ascii -> bool) (s : string) :
  all_chars p (fst (span p s)) = true.
Proof.
  induction s as [|c s IH]; simpl; [reflexivity|].
  destruct (p c) eqn:E; [|reflexivity].
  destruct (span p s); simpl in *; now rewrite E.
Qed.

Lemma span_app (p : ascii -> bool) (s : string) :
  fst (span p s) ++ snd (span p s) = s.
Proof.
  induction s as [|c s IH]; simpl; [reflexivity|].
  destruct (p c); [|reflexivity].
  destruct (span p s); simpl in *; now rewrite IH.
Qed.

Lemma span_rest (p : ascii -> bool) (s : string) :
  match snd (span p s) with
  | EmptyString => True
  | String c _ => p c = false
  end.
Proof.
  induction s as [|c s IH]; simpl; [exact I|].
  destruct (p c) eqn:E; [|exact E].
  now destruct (span p s).
Qed.

(** The run of [p]-characters at the head of [a ++ r], when [a] is such a
    run and [r] starts with another character. *)
Lemma span_run (p : ascii -> bool) (a r : string) :
  all_chars p a = true ->
  match r with EmptyString => True | String c _ => p c = false end ->
  span p (a ++ r) = (a, r).
Proof.
  intros Ha Hr; induction a as [|c a IH].
  - destruct r as [|c r]; simpl in *; [reflexivity | now rewrite Hr].
  - simpl in Ha; apply andb_true_iff in Ha; destruct Ha as [Hc Ha].
    cbn [append span]; rewrite Hc, (IH Ha); reflexivity.
Qed.

End PyStrFacts.

Import PyStrFacts.

(** ** Sample evaluations of the primitives and patterns *)

Example split_once : split "over" "salary over 80000" = ["salary "; " 80000"].
Proof. reflexivity. Qed.

Example split_left_to_right : split "aa" "aaaaa" = [""; ""; "a"].
Proof. reflexivity. Qed.

Example strip_both_ends : strip ("  a b " ++ nl) = "a b".
Proof. reflexivity. Qed.

Example findall_by_inside_words :
  Re.findall_by "baby  name by x by" = ["name"; "x"].
Proof. reflexivity. Qed.

Example search_order_sorted :
  Re.search_order "employees sorted by salary  descending" =
  Some ("salary", Some "descending").
Proof. reflexivity. Qed.

Example search_order_glued_modifier :
  Re.search_order "order by namedesc" = Some ("namedesc", None).
Proof. reflexivity. Qed.

Example search_limit_leftmost : Re.search_limit "stop 12 first 3" = Some "12".
Proof. reflexivity. Qed.

Example translate_sorted_top :
  convert_to_sql
    (converter
       [word "employees"; word "sorted"; word "by"; word "salary";
        word "descending"; word "top"; word "5"])
    insertion_order "Employees sorted by salary descending top 5" =
  Ok ("SELECT MAX(employees.salary) as max_salary" ++ nl ++ "FROM employees"
        ++ nl ++ "GROUP BY employees.salary" ++ nl
        ++ "ORDER BY employees.salary DESC" ++ nl ++ "LIMIT 5").
Proof. vm_compute; reflexivity. Qed.

(** ** Loops, dictionaries and sets *)

Lemma Ok_inj {A : Type} (a b : A) : Ok a = Ok b -> a = b.
Proof. intros H; inversion H; reflexivity. Qed.

Lemma for_each_raise {A S : Type} (l : list A) (body : A -> S -> result S)
  (a : A) (s : S) :
  In a l ->
  (forall s', exists e, body a s' = Raise e) ->
  exists e, for_each l body s = Raise e.
Proof.
  intros Hin Hbody; revert s; induction l as [|b l IH]; intros s; [easy|].
  destruct Hin as [->|Hin]; simpl.
  - destruct (Hbody s) as [e ->]; simpl; eauto.
  - destruct (body b s) as [s'|e]; simpl; eauto.
Qed.

Lemma for_each_raise_inv {A S : Type} (l : list A) (body : A -> S -> result S)
  (s : S) (e : PyExc) :
  for_each l body s = Raise e ->
  exists a s', In a l /\ body a s' = Raise e.
Proof.
  revert s; induction l as [|a l IH]; intros s; simpl; [discriminate|].
  destruct (body a s) as [s1|e1] eqn:E; cbn [bind].
  - intros H; destruct (IH s1 H) as (b & s' & Hin & Hb); eauto.
  - intros [= <-]; eauto.
Qed.

Lemma for_each_ok {A S : Type} (l : list A) (body : A -> S -> result S)
  (P : S -> Prop) (s : S) :
  P s ->
  (forall a s', In a l -> P s' -> exists s'', body a s' = Ok s'' /\ P s'') ->
  exists s', for_each l body s = Ok s' /\ P s'.
Proof.
  revert s; induction l as [|b l IH]; intros s Hs Hbody; simpl; [eauto|].
  destruct (Hbody b s (or_introl eq_refl) Hs) as (s1 & -> & Hs1); simpl.
  apply IH; [exact Hs1|]; intros a s' Ha; apply Hbody; now right.
Qed.

Lemma mem_In (x : string) (l : list string) : mem x l = true <-> In x l.
Proof.
  unfold mem; rewrite existsb_exists; split.
  - intros (y & Hy & E); apply String.eqb_eq in E; now subst.
  - intros H; exists x; split; [exact H | apply String.eqb_refl].
Qed.

Lemma set_add_In (x y : string) (s : pyset) :
  In y (set_add x s) <-> y = x \/ In y s.
Proof.
  unfold set_add; destruct (mem x s) eqn:E.
  - apply mem_In in E; split; [tauto | intros [->|H]; assumption].
  - rewrite in_app_iff; simpl; split; intros H; intuition congruence.
Qed.

Lemma dict_get_key {V : Type} (d : dict V) (k : string) :
  In k (dict_keys d) -> exists v, dict_get d k = Some v.
Proof.
  induction d as [|[k' v] d IH]; simpl; [easy|]; intros H.
  destruct (String.eqb k' k) eqn:E; [eauto|].
  destruct H as [H|H]; [|auto].
  apply String.eqb_neq in E; contradiction.
Qed.

Lemma dict_get_In {V : Type} (d : dict V) (k : string) (v : V) :
  dict_get d k = Some v -> In (k, v) d.
Proof.
  induction d as [|[k' v'] d IH]; simpl; [discriminate|].
  destruct (String.eqb k' k) eqn:E; intros H.
  - apply String.eqb_eq in E; inversion H; subst; now left.
  - right; auto.
Qed.

Lemma entry_key {V : Type} (d : dict V) (k : string) (v : V) :
  In (k, v) d -> In k (dict_keys d).
Proof. intros H; apply (in_map fst) in H; exact H. Qed.

(** Membership in a field of the accumulator after a loop, from what one
    round of the loop adds. *)
Lemma fold_left_In {A : Type} (proj : Select -> list string)
  (f : Select -> A -> Select) (hit : A -> string -> Prop) :
  (forall s a x, In x (proj (f s a)) <-> In x (proj s) \/ hit a x) ->
  forall l s x,
    In x (proj (fold_left f l s)) <->
    In x (proj s) \/ exists a, In a l /\ hit a x.
Proof.
  intros Hstep l; induction l as [|a l IH]; intros s x; simpl.
  - split; [tauto | intros [H|(a & [] & _)]; exact H].
  - rewrite IH, Hstep; split.
    + intros [[H|H]|(b & Hb & H)]; eauto.
    + intros [H|(b & [->|Hb] & H)]; eauto.
Qed.

Section EntityFacts.

Variable self : Converter.

Lemma scan_tables_tables (token : Token) (s : Select) (t : string) :
  In t (tables (scan_tables self token s)) <->
  In t (tables s) \/
  (In t (dict_keys (table_columns self)) /\ table_matches t (text token) = true).
Proof.
  unfold scan_tables.
  rewrite (fold_left_In tables _
             (fun table x => x = table /\ table_matches table (text token) = true)).
  - split; (intros [H|H]; [now left | right]).
    + destruct H as (a & Ha & -> & Hm); auto.
    + exists t; tauto.
  - intros s' a x; destruct (table_matches a (text token)); simpl.
    + rewrite set_add_In; intuition.
    + intuition congruence.
Qed.

Lemma scan_tables_columns (token : Token) (s : Select) :
  columns (scan_tables self token s) = columns s.
Proof.
  unfold scan_tables; generalize (dict_keys (table_columns self)) as l.
  intros l; revert s; induction l as [|a l IH]; intros s; simpl; [reflexivity|].
  rewrite IH; now destruct (table_matches a (text token)).
Qed.

Lemma scan_table_columns_tables (token : Token) (table : string)
  (cols : list string) (s : Select) (t : string) :
  In t (tables (scan_table_columns token table cols s)) <->
  In t (tables s) \/
  (t = table /\ exists column,
      In column cols /\ column_matches column (text token) = true).
Proof.
  unfold scan_table_columns.
  rewrite (fold_left_In tables _
             (fun column x => x = table /\ column_matches column (text token) = true)).
  - split; (intros [H|H]; [now left | right]).
    + destruct H as (a & Ha & -> & Hm); eauto.
    + destruct H as (-> & a & Ha & Hm); eauto.
  - intros s' a x; destruct (column_matches a (text token)); simpl.
    + rewrite set_add_In; intuition.
    + intuition congruence.
Qed.

Lemma scan_table_columns_columns (token : Token) (table : string)
  (cols : list string) (s : Select) (q : string) :
  In q (columns (scan_table_columns token table cols s)) <->
  In q (columns s) \/
  (exists column,
      In column cols /\ column_matches column (text token) = true /\
      q = qualified table column).
Proof.
  unfold scan_table_columns.
  rewrite (fold_left_In columns _
             (fun column x =>
                column_matches column (text token) = true /\
                x = qualified table column)).
  - split; (intros [H|H]; [now left | right]);
      destruct H as (a & Ha & Hm & ->); eauto.
  - intros s' a x; destruct (column_matches a (text token)); simpl.
    + rewrite set_add_In; intuition.
    + intuition congruence.
Qed.

Lemma scan_columns_tables (token : Token) (s : Select) (t : string) :
  In t (tables (scan_columns self token s)) <->
  In t (tables s) \/
  (exists cols column,
      In (t, cols) (table_columns self) /\ In column (dict_keys cols) /\
      column_matches column (text token) = true).
Proof.
  unfold scan_columns.
  rewrite (fold_left_In tables _
             (fun entry x =>
                x = fst entry /\ exists column,
                  In column (dict_keys (snd entry)) /\
                  column_matches column (text token) = true)).
  - split; (intros [H|H]; [now left | right]).
    + destruct H as ([t' cols] & He & -> & column & Hc & Hm); simpl in *; eauto 6.
    + destruct H as (cols & column & He & Hc & Hm).
      exists (t, cols); simpl; eauto.
  - intros s' a x; apply scan_table_columns_tables.
Qed.

Lemma scan_columns_columns (token : Token) (s : Select) (q : string) :
  In q (columns (scan_columns self token s)) <->
  In q (columns s) \/ column_hit self (text token) q.
Proof.
  unfold scan_columns, column_hit.
  rewrite (fold_left_In columns _
             (fun entry x =>
                exists column,
                  In column (dict_keys (snd entry)) /\
                  column_matches column (text token) = true /\
                  x = qualified (fst entry) column)).
  - split; (intros [H|H]; [now left | right]).
    + destruct H as ([t' cols] & He & column & Hc & Hm & ->); simpl in *.
      exists t', cols, column; auto.
    + destruct H as (t & cols & column & He & Hc & Hm & ->).
      exists (t, cols); simpl; eauto.
  - intros s' a x; apply scan_table_columns_columns.
Qed.

Lemma scan_entities_tables (doc : Doc) (s : Select) (t : string) :
  In t (tables (scan_entities self doc s)) <->
  In t (tables s) \/
  exists token, In token (doc_tokens doc) /\ table_hit self (text token) t.
Proof.
  unfold scan_entities.
  apply (fold_left_In tables _ (fun token x => table_hit self (text token) x)).
  intros s' a x; rewrite scan_columns_tables, scan_tables_tables.
  unfold table_hit; tauto.
Qed.

Lemma scan_entities_columns (doc : Doc) (s : Select) (q : string) :
  In q (columns (scan_entities self doc s)) <->
  In q (columns s) \/
  exists token, In token (doc_tokens doc) /\ column_hit self (text token) q.
Proof.
  unfold scan_entities.
  apply (fold_left_In columns _ (fun token x => column_hit self (text token) x)).
  intros s' a x; rewrite scan_columns_columns, scan_tables_columns; tauto.
Qed.

Lemma table_hit_key (tok t : string) :
  table_hit self tok t -> In t (dict_keys (table_columns self)).
Proof.
  intros [[H _]|(cols & column & H & _)]; [exact H|].
  exact (entry_key _ _ _ H).
Qed.

End EntityFacts.

(** ** The passes, field by field *)

Section PassFacts.

Variable self : Converter.
Variable iter : pyset -> list string.

Lemma add_all_columns_tables (table : string) (cols : list string) (s : Select) :
  tables (add_all_columns table cols s) = tables s.
Proof.
  unfold add_all_columns; revert s; induction cols as [|c cols IH]; intros s;
    simpl; [reflexivity | now rewrite IH].
Qed.

Lemma select_all_ok (s : Select) :
  (forall t, In t (iter (tables s)) -> In t (dict_keys (table_columns self))) ->
  exists s', select_all self iter s = Ok s' /\ tables s' = tables s.
Proof.
  intros Hkeys; unfold select_all.
  apply (for_each_ok _ _ (fun s' => tables s' = tables s)); [reflexivity|].
  intros t s' Ht Hs'.
  destruct (dict_get_key _ _ (Hkeys t Ht)) as [cols Hc].
  unfold getitem; rewrite Hc; simpl.
  eexists; split; [reflexivity|].
  now rewrite add_all_columns_tables.
Qed.

Lemma scan_tables_keys (doc : Doc) (t : string) :
  In t (tables (scan_entities self doc (mkSelect [] []))) ->
  In t (dict_keys (table_columns self)).
Proof.
  rewrite scan_entities_tables; intros [[]|(token & _ & H)].
  exact (table_hit_key _ _ _ H).
Qed.

(** The entity pass never raises: every table it iterates over was taken
    from the keys of [table_columns]. *)
Lemma entities_select_ok (doc : Doc) :
  iterates iter ->
  exists s,
    entities_select self iter doc = Ok s /\
    tables s = tables (scan_entities self doc (mkSelect [] [])) /\
    incl (columns (scan_entities self doc (mkSelect [] []))) (columns s).
Proof.
  intros Hiter; unfold entities_select.
  destruct (columns (scan_entities self doc (mkSelect [] []))) eqn:E.
  - destruct (select_all_ok (scan_entities self doc (mkSelect [] [])))
      as (s' & Hs' & Ht).
    + intros t Ht.
      apply (scan_tables_keys doc), (Permutation_in _ (Hiter _) Ht).
    + exists s'; split; [exact Hs' | split; [exact Ht | intros q []]].
  - eexists; split; [reflexivity | split; [reflexivity|]].
    rewrite E; apply incl_refl.
Qed.

Lemma extract_entities_eq (doc : Doc) :
  _extract_entities self iter doc empty_components =
  (s <- entities_select self iter doc ;; Ok (with_select s empty_components)).
Proof.
  unfold _extract_entities, entities_select; simpl.
  now destruct (columns (scan_entities self doc (mkSelect [] []))).
Qed.

Lemma extract_conditions_eq (doc : Doc) (c : Components) :
  _extract_conditions self doc c =
  with_where (where_ c ++ conditions_in_doc self doc)%list c.
Proof.
  unfold _extract_conditions, conditions_in_doc.
  generalize (doc_tokens doc) as l; intros l; revert c.
  induction l as [|token l IH]; intros c; simpl.
  - rewrite app_nil_r; now destruct c.
  - rewrite IH; destruct (is_trigger token); [|reflexivity].
    destruct (_parse_condition_phrase self token); [|reflexivity].
    unfold with_where; simpl; now rewrite <- app_assoc.
Qed.

Lemma int_ok (ds : string) :
  String.length ds <= int_max_str_digits -> int ds = Ok (int_value ds).
Proof.
  intros H; unfold int.
  now destruct (Nat.leb_spec (String.length ds) int_max_str_digits); [|lia].
Qed.

Lemma int_raise (ds : string) :
  int_max_str_digits < String.length ds -> int ds = Raise (int_limit_error ds).
Proof.
  intros H; unfold int.
  now destruct (Nat.leb_spec (String.length ds) int_max_str_digits); [lia|].
Qed.

(** [int] raises nothing but its own error. *)
Lemma int_cases (ds : string) :
  (String.length ds <= int_max_str_digits /\ int ds = Ok (int_value ds)) \/
  (int_max_str_digits < String.length ds /\ int ds = Raise (int_limit_error ds)).
Proof.
  destruct (Nat.le_gt_cases (String.length ds) int_max_str_digits) as [H|H];
    [left; split; [exact H | now apply int_ok]
    | right; split; [exact H | now apply int_raise]].
Qed.

Lemma limit_in_text_none (t : string) :
  Re.search_limit t = None -> limit_in_text t = Ok None.
Proof. intros H; unfold limit_in_text; now rewrite H. Qed.

Lemma limit_in_text_some (t ds : string) :
  Re.search_limit t = Some ds ->
  String.length ds <= int_max_str_digits ->
  limit_in_text t = Ok (Some (int_value ds)).
Proof.
  intros H Hlen; unfold limit_in_text; rewrite H, (int_ok ds Hlen); reflexivity.
Qed.

Lemma limit_in_text_raise (t ds : string) :
  Re.search_limit t = Some ds ->
  int_max_str_digits < String.length ds ->
  limit_in_text t = Raise (int_limit_error ds).
Proof.
  intros H Hlen; unfold limit_in_text; rewrite H, (int_raise ds Hlen); reflexivity.
Qed.

(** Within the cap of [int] the limit pass returns. *)
Lemma limit_in_text_ok (t : string) :
  limit_within_cap t -> exists l, limit_in_text t = Ok l.
Proof.
  intros H; destruct (Re.search_limit t) as [ds|] eqn:E.
  - eexists; exact (limit_in_text_some t ds E (H ds E)).
  - eexists; exact (limit_in_text_none t E).
Qed.

(** The limit pass raises only on a match beyond the cap. *)
Lemma limit_in_text_raise_inv (t : string) (e : PyExc) :
  limit_in_text t = Raise e ->
  exists ds,
    Re.search_limit t = Some ds /\ int_max_str_digits < String.length ds /\
    e = int_limit_error ds.
Proof.
  unfold limit_in_text; destruct (Re.search_limit t) as [ds|]; [|discriminate].
  destruct (int_cases ds) as [[_ ->]|[H ->]]; simpl; [discriminate|].
  intros [= <-]; eauto.
Qed.

Lemma limit_within_cap_none (t : string) :
  Re.search_limit t = None -> limit_within_cap t.
Proof. intros H ds Hds; rewrite H in Hds; discriminate. Qed.

Lemma extract_limits_eq (doc : Doc) (c : Components) :
  _extract_limits doc c =
  (l <- limit_in_text (lower (doc_text doc)) ;;
   Ok (match l with Some n => with_limit (Some n) c | None => c end)).
Proof.
  unfold _extract_limits, limit_in_text.
  destruct (Re.search_limit _) as [ds|]; [|reflexivity].
  now destruct (int ds).
Qed.

(** [_parse_query] in one piece: each pass fills its own fields. *)
Lemma parse_query_eq (txt : string) :
  _parse_query self iter txt =
  (s <- entities_select self iter (nlp self txt) ;;
   let t := lower (doc_text (nlp self txt)) in
   l <- limit_in_text t ;;
   Ok (mkComponents s [] (conditions_in_doc self (nlp self txt))
         (group_by_in_text self t) [] (order_in_text self t)
         l (aggregates_in_text self t))).
Proof.
  unfold _parse_query; rewrite extract_entities_eq.
  destruct (entities_select self iter (nlp self txt)) as [s|e]; [|reflexivity].
  cbn [bind]; rewrite extract_limits_eq, extract_conditions_eq; cbv zeta.
  destruct (limit_in_text _) as [l|e]; [|reflexivity].
  unfold _extract_ordering, _extract_aggregations, order_in_text; cbn [bind].
  destruct (Re.search_order _) as [[column modifier]|];
    destruct l; reflexivity.
Qed.

(** [_parse_query] returns an intent unless the limit pass meets a digit
    run beyond the cap of [int]. *)
Lemma parse_query_ok (txt : string) :
  iterates iter ->
  limit_within_cap (lower (doc_text (nlp self txt))) ->
  exists components, _parse_query self iter txt = Ok components.
Proof.
  intros Hiter Hcap; rewrite parse_query_eq.
  destruct (entities_select_ok (nlp self txt) Hiter) as (s & -> & _).
  destruct (limit_in_text_ok _ Hcap) as [l Hl].
  cbn [bind]; cbv zeta; rewrite Hl; cbn [bind]; eauto.
Qed.

(** The only error of [_parse_query] is the one of [int]. *)
Lemma parse_query_raise_inv (txt : string) (e : PyExc) :
  iterates iter ->
  _parse_query self iter txt = Raise e ->
  exists ds,
    Re.search_limit (lower (doc_text (nlp self txt))) = Some ds /\
    int_max_str_digits < String.length ds /\
    e = int_limit_error ds.
Proof.
  intros Hiter; rewrite parse_query_eq.
  destruct (entities_select_ok (nlp self txt) Hiter) as (s & -> & _).
  cbn [bind]; cbv zeta.
  destruct (limit_in_text _) as [l|e'] eqn:E; cbn [bind]; [discriminate|].
  intros [= <-]; exact (limit_in_text_raise_inv _ _ E).
Qed.




Lemma render_between_raises (c : Condition) :
  operator c = "between" ->
  contains "and" (value c) = false ->
  render_condition c = Raise (IndexError "list index out of range").
Proof.
  intros Hop Hv; unfold render_condition; rewrite Hop; simpl.
  now rewrite (split_absent _ _ Hv).
Qed.

Lemma where_clause_raises (components : Components) (c : Condition) :
  In c (where_ components) ->
  operator c = "between" ->
  contains "and" (value c) = false ->
  exists e, where_clause components = Raise e.
Proof.
  intros Hin Hop Hv; unfold where_clause.
  destruct (where_ components) as [|c0 l] eqn:E; [easy|].
  destruct (for_each_raise (c0 :: l)
              (fun condition acc =>
                 r <- render_condition condition ;; Ok (acc ++ r)%list)
              c [] Hin) as [e He].
  - intros acc; rewrite (render_between_raises c Hop Hv); simpl; eauto.
  - unfold render_conditions; rewrite He; simpl; eauto.
Qed.

End PassFacts.

(** ** Conditions that cannot be rendered *)

(** C10: an intent holding a [between] condition whose value has no "and"
    makes [_build_sql_query] raise, and [convert_to_sql] re-raises it as a
    [ValueError]: the condition is neither dropped nor is SQL returned. *)
Theorem between_without_and_raises (self : Converter)
  (iter : pyset -> list string) (components : Components) (c : Condition) :
  In c (where_ components) ->
  operator c = "between" ->
  contains "and" (value c) = false ->
  (exists e, _build_sql_query self iter components = Raise e) /\
  (forall txt,
      _parse_query self iter (lower txt) = Ok components ->
      exists e,
        convert_to_sql self iter txt =
        Raise (ValueError ("Failed to convert text to SQL: " ++ str_exc e))).
Proof.
  intros Hin Hop Hv.
  assert (Hbuild : exists e, _build_sql_query self iter components = Raise e).
  { unfold _build_sql_query.
    destruct (index (iter (tables (select components))) 0) as [anchor|e];
      simpl; [|eauto].
    destruct (join_clauses self anchor _) as [js|e]; simpl; [|eauto].
    destruct (where_clause_raises components c Hin Hop Hv) as [e ->].
    simpl; eauto. }
  split; [exact Hbuild|].
  intros txt Hparse; destruct Hbuild as [e He]; exists e.
  unfold convert_to_sql; rewrite Hparse; simpl; now rewrite He.
Qed.

Lemma between_without_and_raises_witness :
  exists e,
    convert_to_sql
      (converter
         [word "projects";
          prep "with" [word "budget"; word "between"; word "5"];
          word "budget"; word "between"; word "5"])
      insertion_order "projects with budget between 5" =
    Raise (ValueError ("Failed to convert text to SQL: " ++ str_exc e)).
Proof.
  eapply (proj2 (between_without_and_raises _ insertion_order _
                   (mkCondition "budget" "between" "5") _ eq_refl eq_refl)).
  vm_compute; reflexivity.
  Unshelve.
  simpl; now left.
Defined.

(** ** Iteration orders *)

Lemma iterates_insertion_order : iterates insertion_order.
Proof. intros s; apply Permutation_refl. Qed.

Lemma iterates_reverse_order : iterates reverse_order.
Proof. intros s; apply Permutation_sym, Permutation_rev. Qed.

Lemma iterates_nil (iter : pyset -> list string) :
  iterates iter -> iter [] = [].
Proof. intros H; apply Permutation_nil, Permutation_sym, H. Qed.

Lemma iterates_single (iter : pyset -> list string) (x : string) :
  iterates iter -> iter [x] = [x].
Proof. intros H; apply Permutation_length_1_inv, Permutation_sym, H. Qed.

(** ** Passes without a match, requests without a table *)

Lemma fixed_patterns_nonempty (spacy_load : string -> Doc) (schema : option string) :
  patterns_nonempty
    (pat_conditions (patterns (TextToSQLConverter spacy_load schema))).
Proof.
  intros op pats pattern H1 H2; simpl in H1.
  repeat (destruct H1 as [H1|H1];
          [injection H1 as <- <-; simpl in H2; intuition (subst; discriminate)|]).
  destruct H1.
Qed.




(** ** Entity extraction *)

(** C6 (as amended): a table name is matched in both directions (name in
    token text, or token text in name), a column name in one direction only
    (name in token text).  After the loop over the tokens [tables] holds
    exactly the tables with a table match or with a matched column, and
    [columns] exactly the qualified matched columns; the pass keeps both. *)
Theorem entity_matches (self : Converter) (iter : pyset -> list string)
  (doc : Doc) :
  iterates iter ->
  let s := scan_entities self doc (mkSelect [] []) in
  (forall t,
      In t (tables s) <->
      exists token,
        In token (doc_tokens doc) /\
        ((In t (dict_keys (table_columns self)) /\
          (contains (lower t) (lower (text token)) = true \/
           contains (lower (text token)) (lower t) = true)) \/
         (exists cols column,
             In (t, cols) (table_columns self) /\ In column (dict_keys cols) /\
             contains (lower column) (lower (text token)) = true))) /\
  (forall q,
      In q (columns s) <->
      exists token t cols column,
        In token (doc_tokens doc) /\
        In (t, cols) (table_columns self) /\ In column (dict_keys cols) /\
        contains (lower column) (lower (text token)) = true /\
        q = qualified t column) /\
  exists s',
    _extract_entities self iter doc empty_components =
    Ok (with_select s' empty_components) /\
    tables s' = tables s /\ incl (columns s) (columns s').
Proof.
  intros Hiter s; repeat split.
  - intros H; apply scan_entities_tables in H.
    destruct H as [[]|(token & Hk & [[Hkey Hm]|Hc])]; exists token; split; auto.
    left; split; [exact Hkey|].
    unfold table_matches in Hm; now apply orb_true_iff in Hm.
  - intros (token & Hk & H); apply scan_entities_tables; right.
    exists token; split; [exact Hk|].
    destruct H as [[Hkey Hm]|Hc]; [left | now right].
    split; [exact Hkey|]; unfold table_matches; now apply orb_true_iff.
  - intros H; apply scan_entities_columns in H.
    destruct H as [[]|(token & Hk & t & cols & column & H)].
    exists token, t, cols, column; tauto.
  - intros (token & t & cols & column & Hk & H); apply scan_entities_columns.
    right; exists token; split; [exact Hk|].
    exists t, cols, column; exact H.
  - destruct (entities_select_ok self iter doc Hiter) as (s' & Hs' & Ht & Hc).
    exists s'; rewrite extract_entities_eq, Hs'; simpl; auto.
Qed.

Lemma entity_matches_witness :
  In "employees"
    (tables (scan_entities (converter [word "salary"]) (mkDoc "salary" [word "salary"])
               (mkSelect [] []))).
Proof.
  apply (proj1 (entity_matches (converter [word "salary"]) insertion_order
                  (mkDoc "salary" [word "salary"]) iterates_insertion_order)).
  exists (word "salary"); split; [now left|].
  right; eexists _, "salary"; repeat split.
  - left; reflexivity.
  - simpl; tauto.
Defined.

(** The specification describes the column match as bidirectional too.  It
    is not: "sal" occurs in the column name "salary", yet the pass records
    neither the column nor its table. *)
Lemma entity_matches_column_counterexample :
  contains (lower "sal") (lower "salary") = true /\
  _extract_entities (converter [word "sal"]) insertion_order
    (mkDoc "sal" [word "sal"]) empty_components = Ok empty_components.
Proof. split; vm_compute; reflexivity. Qed.

(** ** Joins *)

Section JoinFacts.

Variable self : Converter.





End JoinFacts.




(** ** The shape of a returned query *)

Lemma build_ok_shape (self : Converter) (iter : pyset -> list string)
  (components : Components) (sql : string) :
  _build_sql_query self iter components = Ok sql ->
  exists anchor js w,
    index (iter (tables (select components))) 0 = Ok anchor /\
    join_clauses self anchor (tl (iter (tables (select components)))) = Ok js /\
    where_clause components = Ok w /\
    sql = strip (select_clause iter components ++ "FROM " ++ anchor ++ nl
                   ++ String.concat "" js ++ w ++ group_by_clause components
                   ++ having_clause components ++ order_by_clause components
                   ++ limit_clause components).
Proof.
  unfold _build_sql_query, bind.
  destruct (index (iter (tables (select components))) 0) as [anchor|e] eqn:Ha;
    [|discriminate].
  destruct (join_clauses self anchor _) as [js|e] eqn:Hj; [|discriminate].
  destruct (where_clause components) as [w|e] eqn:Hw; [|discriminate].
  intros H; apply Ok_inj in H; subst sql; exists anchor, js, w.
  split; [reflexivity | split; [exact Hj | split; [reflexivity|]]].
  now rewrite !append_assoc.
Qed.

Lemma lstrip_length (s : string) : String.length (lstrip s) <= String.length s.
Proof.
  induction s as [|c s IH]; simpl; [lia|].
  destruct (is_space c); simpl; lia.
Qed.

Lemma lstrip_app (q rest : string) :
  q <> "" -> lstrip q = q -> lstrip (q ++ rest) = q ++ rest.
Proof.
  destruct q as [|a q]; [easy|]; intros _ H; simpl in *.
  destruct (is_space a); [|reflexivity].
  pose proof (lstrip_length q) as Hl; rewrite H in Hl; simpl in Hl; lia.
Qed.

Lemma starts_with_refl (q : string) : starts_with q q = true.
Proof. rewrite <- (append_nil_r q) at 2; apply starts_with_app. Qed.

(** Stripping a query keeps a leading part that is itself stripped. *)
Lemma strip_keeps_prefix (q rest : string) :
  q <> "" -> lstrip q = q -> rstrip q = q ->
  starts_with q (strip (q ++ rest)) = true.
Proof.
  intros Hq Hl Hr; unfold strip.
  rewrite (lstrip_app q rest Hq Hl), rstrip_app.
  destruct (rstrip rest).
  - rewrite Hr; apply starts_with_refl.
  - apply starts_with_app.
Qed.

(** ** "average salary by department" *)

(** C1 (as amended): for the text "average salary by department" the
    aggregate pass pairs AVG with every column named in the text, so it
    emits AVG over employees.department and over employees.salary, and the
    group-by column employees.department; the SELECT line of the query is
    made of these two aggregates. *)
Theorem average_salary_by_department (spacy_load : string -> Doc)
  (schema : option string) (iter : pyset -> list string) :
  let self := TextToSQLConverter spacy_load schema in
  let txt := "average salary by department" in
  iterates iter ->
  doc_text (spacy_load txt) = txt ->
  exists components,
    _parse_query self iter txt = Ok components /\
    aggregates components =
      [mkAggregate "AVG" "employees.department";
       mkAggregate "AVG" "employees.salary"] /\
    group_by components = ["employees.department"] /\
    select_clause iter components =
      "SELECT AVG(employees.department) as avg_department, AVG(employees.salary) as avg_salary"
        ++ nl /\
    forall sql,
      convert_to_sql self iter txt = Ok sql ->
      starts_with
        (("SELECT AVG(employees.department) as avg_department, AVG(employees.salary) as avg_salary"
            ++ nl) ++ "FROM") sql = true.
Proof.
  intros self txt Hiter Hdoc.
  destruct (entities_select_ok self iter (nlp self txt) Hiter) as (s & Hs & _).
  pose proof (parse_query_eq self iter txt) as Hp.
  rewrite Hs in Hp; cbn [bind] in Hp.
  change (nlp self txt) with (spacy_load txt) in Hp; rewrite Hdoc in Hp.
  assert (Hl : limit_in_text (lower txt) = Ok None) by (vm_compute; reflexivity).
  rewrite Hl in Hp; cbn [bind] in Hp.
  eexists; split; [exact Hp|].
  assert (Hsel :
    select_clause iter
      (mkComponents s [] (conditions_in_doc self (spacy_load txt))
         (group_by_in_text self (lower txt)) [] (order_in_text self (lower txt))
         None (aggregates_in_text self (lower txt))) =
    "SELECT AVG(employees.department) as avg_department, AVG(employees.salary) as avg_salary"
      ++ nl) by (vm_compute; reflexivity).
  split; [vm_compute; reflexivity|].
  split; [vm_compute; reflexivity|].
  split; [exact Hsel|].
  intros sql; unfold convert_to_sql.
  change (lower txt) with txt at 1; rewrite Hp; cbn [bind].
  destruct (_build_sql_query self iter _) as [sql'|e] eqn:Hb; [|discriminate].
  intros H; apply Ok_inj in H; subst sql'.
  apply build_ok_shape in Hb; destruct Hb as (anchor & js & w & _ & _ & _ & ->).
  rewrite Hsel.
  change ("FROM " ++ ?x) with ("FROM" ++ " " ++ x).
  rewrite <- (append_assoc _ "FROM").
  apply strip_keeps_prefix; [discriminate | reflexivity | reflexivity].
Qed.

Lemma average_salary_by_department_witness :
  exists components,
    _parse_query
      (converter [word "average"; word "salary"; word "by"; word "department"])
      insertion_order "average salary by department" = Ok components /\
    List.length (aggregates components) = 2.
Proof.
  destruct (average_salary_by_department
              (analysed [word "average"; word "salary"; word "by"; word "department"])
              None insertion_order iterates_insertion_order eq_refl)
    as (c & Hp & Ha & _).
  exists c; split; [exact Hp | now rewrite Ha].
Defined.

(** The specification expects a SELECT line with the single item
    AVG(employees.salary); the query for the usual four-token analysis
    starts otherwise. *)
Lemma average_salary_select_counterexample :
  exists sql,
    convert_to_sql
      (converter [word "average"; word "salary"; word "by"; word "department"])
      insertion_order "average salary by department" = Ok sql /\
    sql =
      "SELECT AVG(employees.department) as avg_department, AVG(employees.salary) as avg_salary"
        ++ nl ++ "FROM employees"
        ++ nl ++ "JOIN departments ON employees.department = departments.name"
        ++ nl ++ "GROUP BY employees.department" /\
    starts_with ("SELECT AVG(employees.salary) as avg_salary" ++ nl) sql = false.
Proof.
  eexists; split; [vm_compute; reflexivity|].
  split; vm_compute; reflexivity.
Qed.

(** ** Requests that return a query *)

Lemma fold_left_invariant {A S : Type} (f : S -> A -> S) (P : S -> Prop)
  (l : list A) (s : S) :
  (forall s a, P s -> P (f s a)) -> P s -> P (fold_left f l s).
Proof.
  intros Hf; revert s; induction l as [|a l IH]; intros s Hs; simpl; auto.
Qed.

Lemma set_add_NoDup (x : string) (s : pyset) : NoDup s -> NoDup (set_add x s).
Proof.
  intros H; unfold set_add; destruct (mem x s) eqn:E; [exact H|].
  apply NoDup_app; [exact H | repeat constructor; easy |].
  intros y Hy [<-|[]].
  apply mem_In in Hy; congruence.
Qed.

Lemma scan_entities_NoDup (self : Converter) (doc : Doc) (s : Select) :
  NoDup (tables s) -> NoDup (tables (scan_entities self doc s)).
Proof.
  intros H; unfold scan_entities.
  apply (fold_left_invariant _ (fun s => NoDup (tables s))); [|exact H].
  intros s1 token H1; unfold scan_columns.
  apply (fold_left_invariant _ (fun s => NoDup (tables s))).
  - intros s2 entry H2; unfold scan_table_columns.
    apply (fold_left_invariant _ (fun s => NoDup (tables s))); [|exact H2].
    intros s3 column H3; destruct (column_matches column (text token));
      [|exact H3].
    now apply set_add_NoDup.
  - unfold scan_tables.
    apply (fold_left_invariant _ (fun s => NoDup (tables s))); [|exact H1].
    intros s2 table H2; destruct (table_matches table (text token));
      [|exact H2].
    now apply set_add_NoDup.
Qed.

(** The tables of a parsed intent are distinct keys of [table_columns]. *)
Lemma parse_query_tables (self : Converter) (iter : pyset -> list string)
  (txt : string) (components : Components) :
  iterates iter ->
  _parse_query self iter txt = Ok components ->
  tables (select components) =
    tables (scan_entities self (nlp self txt) (mkSelect [] [])) /\
  NoDup (tables (select components)) /\
  forall t,
    In t (tables (select components)) -> In t (dict_keys (table_columns self)).
Proof.
  intros Hiter Hp; rewrite parse_query_eq in Hp.
  destruct (entities_select_ok self iter (nlp self txt) Hiter) as (s & Hs & Ht & _).
  rewrite Hs in Hp; cbn [bind] in Hp.
  destruct (limit_in_text _) as [l|e]; cbn [bind] in Hp; [|discriminate].
  apply Ok_inj in Hp; subst components.
  cbn [select]; rewrite Ht; split; [reflexivity | split].
  - apply scan_entities_NoDup; constructor.
  - apply scan_tables_keys.
Qed.

Section FixedSchema.

Variable spacy_load : string -> Doc.
Variable schema : option string.
Variable iter : pyset -> list string.

Local Abbreviation self := (TextToSQLConverter spacy_load schema).

Lemma fixed_tables (t : string) :
  In t (dict_keys (table_columns self)) ->
  t = "employees" \/ t = "departments" \/ t = "projects".
Proof. simpl; intuition. Qed.

Lemma fixed_join_clause (anchor table : string) :
  In anchor (dict_keys (table_columns self)) ->
  In table (dict_keys (table_columns self)) ->
  table <> anchor ->
  exists j, join_clause self anchor table = Ok j.
Proof.
  intros Ha Ht Hne.
  apply fixed_tables in Ha; apply fixed_tables in Ht.
  destruct Ha as [->|[->| ->]]; destruct Ht as [->|[->| ->]];
    try (now destruct Hne); eexists; vm_compute; reflexivity.
Qed.

Lemma fixed_join_clauses (anchor : string) (others : list string) :
  In anchor (dict_keys (table_columns self)) ->
  (forall t, In t others -> In t (dict_keys (table_columns self)) /\ t <> anchor) ->
  exists js, join_clauses self anchor others = Ok js.
Proof.
  intros Ha Ho; unfold join_clauses.
  destruct (for_each_ok others
              (fun table acc =>
                 j <- join_clause self anchor table ;; Ok (acc ++ [j])%list)
              (fun _ => True) [] I) as (js & Hjs & _); [|eauto].
  intros t acc Ht _.
  destruct (Ho t Ht) as [Hk Hne].
  destruct (fixed_join_clause anchor t Ha Hk Hne) as [j ->].
  cbn [bind]; eauto.
Qed.

(** With the fixed schema a parsed intent with a table and conditions that
    render always yields a query. *)
Lemma build_returns (txt : string) (components : Components) (w : string) :
  iterates iter ->
  _parse_query self iter txt = Ok components ->
  tables (select components) <> [] ->
  where_clause components = Ok w ->
  exists anchor js,
    _build_sql_query self iter components =
    Ok (strip
          (select_clause iter components ++ "FROM " ++ anchor ++ nl
             ++ String.concat "" js ++ w ++ group_by_clause components
             ++ having_clause components ++ order_by_clause components
             ++ limit_clause components)).
Proof.
  intros Hiter Hp Hne Hw.
  destruct (parse_query_tables self iter txt components Hiter Hp)
    as (_ & Hnd & Hkeys).
  pose proof (Hiter (tables (select components))) as Hperm.
  destruct (iter (tables (select components))) as [|anchor others] eqn:E.
  { apply Permutation_nil in Hperm; congruence. }
  assert (Hnd' : NoDup (anchor :: others))
    by (apply (Permutation_NoDup (Permutation_sym Hperm)), Hnd).
  destruct (fixed_join_clauses anchor others) as [js Hjs].
  - apply Hkeys, (Permutation_in _ Hperm); now left.
  - intros t Ht; split.
    + apply Hkeys, (Permutation_in _ Hperm); now right.
    + intros ->; inversion Hnd'; contradiction.
  - exists anchor, js; unfold _build_sql_query, bind.
    rewrite E; cbn [index nth_error tl]; rewrite Hjs, Hw.
    now rewrite !append_assoc.
Qed.

End FixedSchema.

(** ** Conditions *)

Lemma starts_with_contains (sub s : string) :
  starts_with sub s = true -> contains sub s = true.
Proof. intros H; destruct s; simpl; now rewrite H. Qed.

Lemma contains_middle (pre sub post : string) :
  contains sub (pre ++ sub ++ post) = true.
Proof. apply contains_app_l, starts_with_contains, starts_with_app. Qed.

(** A stripped piece in the middle of a query survives [strip]. *)
Lemma strip_contains (s q mid piece rest : string) :
  s = q ++ mid ++ piece ++ rest ->
  q <> "" -> lstrip q = q ->
  piece <> "" -> rstrip piece = piece ->
  contains piece (strip s) = true.
Proof.
  intros -> Hq Hl Hp Hr; unfold strip.
  rewrite (lstrip_app q _ Hq Hl).
  rewrite <- (append_assoc mid piece rest), <- (append_assoc q (mid ++ piece) rest),
    <- (append_assoc q mid piece).
  rewrite rstrip_app; destruct (rstrip rest) as [|c r].
  - rewrite rstrip_app, Hr; destruct piece as [|c p]; [easy|].
    apply contains_app_l, starts_with_contains, starts_with_refl.
  - rewrite append_assoc; apply contains_middle.
Qed.





(** ** Ordering *)









(** ** Iteration order and the output *)

Lemma for_each_preserves {A S : Type} (l : list A) (body : A -> S -> result S)
  (P : S -> Prop) (s s' : S) :
  (forall a s1 s2, body a s1 = Ok s2 -> P s1 -> P s2) ->
  P s -> for_each l body s = Ok s' -> P s'.
Proof.
  intros Hbody; revert s; induction l as [|a l IH]; intros s Hs; simpl.
  - intros H; apply Ok_inj in H; now subst.
  - destruct (body a s) as [s1|e] eqn:E; cbn [bind]; [|discriminate].
    apply IH, (Hbody a s s1 E Hs).
Qed.

Section OrderFacts.

Variable self : Converter.

Lemma entities_select_tables (iter : pyset -> list string) (doc : Doc)
  (sel : Select) :
  entities_select self iter doc = Ok sel ->
  tables sel = tables (scan_entities self doc (mkSelect [] [])).
Proof.
  unfold entities_select.
  destruct (columns (scan_entities self doc (mkSelect [] []))) eqn:E.
  - unfold select_all.
    apply (for_each_preserves _ _
             (fun s' => tables s' = tables (scan_entities self doc (mkSelect [] []))));
      [|reflexivity].
    intros t s1 s2; unfold getitem.
    destruct (dict_get (table_columns self) t); cbn [bind]; [|discriminate].
    intros H; apply Ok_inj in H; subst s2.
    now rewrite add_all_columns_tables.
  - intros H; apply Ok_inj in H; now subst.
Qed.

Lemma entities_select_columns (iter : pyset -> list string) (doc : Doc)
  (sel : Select) :
  entities_select self iter doc = Ok sel ->
  columns (scan_entities self doc (mkSelect [] [])) <> [] ->
  sel = scan_entities self doc (mkSelect [] []).
Proof.
  unfold entities_select.
  destruct (columns (scan_entities self doc (mkSelect [] []))); [easy|].
  intros H _; apply Ok_inj in H; now subst.
Qed.

(** A matched column brings its table along. *)
Lemma scan_columns_need_table (doc : Doc) :
  tables (scan_entities self doc (mkSelect [] [])) = [] ->
  columns (scan_entities self doc (mkSelect [] [])) = [].
Proof.
  intros Ht.
  destruct (columns (scan_entities self doc (mkSelect [] []))) as [|q l] eqn:E;
    [reflexivity|].
  assert (Hq : In q (columns (scan_entities self doc (mkSelect [] []))))
    by (rewrite E; now left).
  apply scan_entities_columns in Hq.
  destruct Hq as [[]|(token & Hk & t & cols & column & He & Hc & Hm & _)].
  assert (Hin : In t (tables (scan_entities self doc (mkSelect [] [])))).
  { apply scan_entities_tables; right; exists token; split; [exact Hk|].
    right; exists cols, column; auto. }
  rewrite Ht in Hin; destruct Hin.
Qed.

(** The output depends on the iteration order only through the order of
    the matched tables and, without aggregates, of the selected columns. *)
Lemma convert_agree (iter1 iter2 : pyset -> list string) (txt : string) :
  let doc := nlp self (lower txt) in
  let s := scan_entities self doc (mkSelect [] []) in
  iter1 (tables s) = iter2 (tables s) ->
  (forall sel,
      entities_select self iter2 doc = Ok sel ->
      aggregates_in_text self (lower (doc_text doc)) = [] ->
      iter1 (columns sel) = iter2 (columns sel)) ->
  convert_to_sql self iter1 txt = convert_to_sql self iter2 txt.
Proof.
  intros doc s Htab Hcol.
  assert (Hsel : entities_select self iter1 doc = entities_select self iter2 doc).
  { unfold entities_select; fold s.
    destruct (columns s); [|reflexivity].
    unfold select_all; now rewrite Htab. }
  unfold convert_to_sql; rewrite !parse_query_eq; fold doc; rewrite Hsel.
  destruct (entities_select self iter2 doc) as [sel|e] eqn:Es;
    cbn [bind]; [|reflexivity].
  pose proof (entities_select_tables iter2 doc sel Es) as Ht; fold s in Ht.
  specialize (Hcol sel eq_refl).
  cbv zeta; destruct (limit_in_text _) as [l|e]; cbn [bind]; [|reflexivity].
  set (c := mkComponents sel _ _ _ _ _ _ _).
  assert (Hb : _build_sql_query self iter1 c = _build_sql_query self iter2 c).
  { unfold _build_sql_query.
    assert (Hs : select_clause iter1 c = select_clause iter2 c).
    { unfold select_clause, select_items; cbn [aggregates select c].
      destruct (aggregates_in_text self (lower (doc_text doc))); [|reflexivity].
      now rewrite Hcol. }
    rewrite Hs; cbn [select c]; now rewrite Ht, Htab. }
  now rewrite Hb.
Qed.

End OrderFacts.

(** C5 (as amended): the translation is a function of the text, the
    converter and the order in which the interpreter iterates over sets.
    Two runs with the same iteration order return the same bytes; two runs
    with different orders still agree when the text identifies no table, or
    exactly one table together with either one matched column or an
    aggregate; otherwise the anchor table and the column order may differ. *)
Theorem translation_across_orders (self : Converter)
  (iter1 iter2 : pyset -> list string) (txt : string) :
  iterates iter1 -> iterates iter2 ->
  let doc := nlp self (lower txt) in
  let s := scan_entities self doc (mkSelect [] []) in
  ((forall l, iter1 l = iter2 l) ->
   convert_to_sql self iter1 txt = convert_to_sql self iter2 txt) /\
  (tables s = [] \/
   (List.length (tables s) = 1 /\
    (List.length (columns s) = 1 \/
     aggregates_in_text self (lower (doc_text doc)) <> [])) ->
   convert_to_sql self iter1 txt = convert_to_sql self iter2 txt).
Proof.
  intros H1 H2 doc s; split.
  - intros Hext; apply convert_agree; intros; apply Hext.
  - intros Hcase; apply convert_agree; fold doc; fold s.
    + destruct Hcase as [->|[Hlen _]].
      * now rewrite (iterates_nil iter1 H1), (iterates_nil iter2 H2).
      * destruct (tables s) as [|t [|t' l]]; try discriminate.
        now rewrite (iterates_single iter1 t H1), (iterates_single iter2 t H2).
    + intros sel Es Hagg.
      destruct Hcase as [Ht|[_ [Hlen|Hne]]]; [| |contradiction].
      * pose proof (scan_columns_need_table self doc Ht) as Hc; fold s in Hc.
        pose proof (entities_select_tables self iter2 doc sel Es) as Hts.
        fold s in Hts; rewrite Ht in Hts.
        unfold entities_select in Es; fold s in Es; rewrite Hc in Es.
        unfold select_all in Es; rewrite Ht, (iterates_nil iter2 H2) in Es.
        cbn [for_each] in Es; apply Ok_inj in Es; subst sel.
        now rewrite Hc, (iterates_nil iter1 H1), (iterates_nil iter2 H2).
      * assert (Hs : sel = s).
        { apply (entities_select_columns self iter2 doc sel Es); fold s.
          destruct (columns s); [discriminate | easy]. }
        subst sel; destruct (columns s) as [|q [|q' l]]; try discriminate.
        now rewrite (iterates_single iter1 q H1), (iterates_single iter2 q H2).
Qed.

Lemma translation_across_orders_witness :
  convert_to_sql (converter [word "employees"; word "salary"]) insertion_order
    "employees salary" =
  convert_to_sql (converter [word "employees"; word "salary"]) reverse_order
    "employees salary".
Proof.
  apply (proj2 (translation_across_orders
                  (converter [word "employees"; word "salary"])
                  insertion_order reverse_order "employees salary"
                  iterates_insertion_order iterates_reverse_order)).
  right; split; [reflexivity | left; reflexivity].
Defined.

(** The specification expects identical bytes on every run.  Across
    interpreter runs this fails: two iteration orders of the same two-table
    set give different anchors. *)
Lemma translation_across_orders_counterexample :
  iterates insertion_order /\ iterates reverse_order /\
  convert_to_sql (converter [word "employees"; word "departments"])
    insertion_order "employees departments" =
  Ok ("SELECT employees.department" ++ nl ++ "FROM employees" ++ nl
        ++ "JOIN departments ON employees.department = departments.name") /\
  convert_to_sql (converter [word "employees"; word "departments"])
    reverse_order "employees departments" =
  Ok ("SELECT employees.department" ++ nl ++ "FROM departments" ++ nl
        ++ "JOIN employees ON departments.name = employees.department").
Proof.
  split; [exact iterates_insertion_order|].
  split; [exact iterates_reverse_order|].
  split; vm_compute; reflexivity.
Qed.

(** ** The select-all fallback *)







(** ** The limit *)

Lemma digit_not_space (c : ascii) : is_digit c = true -> is_space c = false.
Proof. unfold is_digit, is_space, between_codes; intros H; leb_cases. Qed.

Lemma code_ascii_of_nat (n : nat) : n < 256 -> code (ascii_of_nat n) = n.
Proof. apply nat_ascii_embedding. Qed.

Lemma lower_char_idem (c : ascii) : lower_char (lower_char c) = lower_char c.
Proof.
  unfold lower_char; destruct (is_upper c) eqn:E; [|now rewrite E].
  assert (H : is_upper (ascii_of_nat (code c + 32)) = false); [|now rewrite H].
  unfold is_upper, between_codes in *.
  apply andb_true_iff in E; destruct E as [E1 E2].
  apply Nat.leb_le in E1, E2.
  rewrite code_ascii_of_nat by lia.
  leb_cases.
Qed.

Lemma lower_idem (s : string) : lower (lower s) = lower s.
Proof.
  unfold lower; induction s as [|c s IH]; simpl; [reflexivity|].
  now rewrite IH, lower_char_idem.
Qed.







Lemma is_empty_false (s : string) : s <> "" -> is_empty s = false.
Proof. destruct s; [easy | reflexivity]. Qed.

Lemma is_empty_true (s : string) : is_empty s = true -> s = "".
Proof. destruct s; [reflexivity | discriminate]. Qed.

Lemma limit_keyword_prefix (kw r : string) :
  In kw ["top"; "first"; "limit"] ->
  Re.first_some (strip_prefix "top" (kw ++ r))
    (Re.first_some (strip_prefix "first" (kw ++ r))
       (strip_prefix "limit" (kw ++ r))) = Some r.
Proof.
  intros [<-|[<-|[<-|[]]]]; reflexivity.
Qed.

Lemma limit_keyword_inv (s r : string) :
  Re.first_some (strip_prefix "top" s)
    (Re.first_some (strip_prefix "first" s) (strip_prefix "limit" s)) = Some r ->
  exists kw, In kw ["top"; "first"; "limit"] /\ s = kw ++ r.
Proof.
  unfold Re.first_some.
  destruct (strip_prefix "top" s) as [r1|] eqn:E1.
  { intros [= <-]; exists "top"; split; [simpl; auto|].
    now apply strip_prefix_inv. }
  destruct (strip_prefix "first" s) as [r2|] eqn:E2.
  { intros [= <-]; exists "first"; split; [simpl; auto|].
    now apply strip_prefix_inv. }
  intros E3; exists "limit"; split; [simpl; auto|].
  now apply strip_prefix_inv.
Qed.

Lemma limit_match_here_complete (kw ws ds post : string) :
  In kw ["top"; "first"; "limit"] ->
  ws <> "" -> all_chars is_space ws = true ->
  ds <> "" -> all_chars is_digit ds = true ->
  match post with EmptyString => True | String c _ => is_digit c = false end ->
  Re.limit_match_here (kw ++ ws ++ ds ++ post) = Some ds.
Proof.
  intros Hkw Hws Hsp Hds Hdg Hpost; unfold Re.limit_match_here.
  rewrite (limit_keyword_prefix kw _ Hkw).
  rewrite (span_run is_space ws (ds ++ post) Hsp).
  - rewrite (is_empty_false ws Hws), (span_run is_digit ds post Hdg Hpost).
    now rewrite (is_empty_false ds Hds).
  - destruct ds as [|d ds]; [easy|]; simpl in *.
    apply andb_true_iff in Hdg; now apply digit_not_space.
Qed.

Lemma limit_match_here_sound (s ds : string) :
  Re.limit_match_here s = Some ds -> limit_phrase_at s 0 ds.
Proof.
  unfold Re.limit_match_here.
  destruct (Re.first_some _ _) as [r|] eqn:Ek; [|discriminate].
  apply limit_keyword_inv in Ek; destruct Ek as (kw & Hkw & ->).
  pose proof (span_app is_space r) as Ha1.
  pose proof (span_all is_space r) as Hs1.
  destruct (span is_space r) as [ws r1]; simpl in Ha1, Hs1.
  destruct (is_empty ws) eqn:Ews; [discriminate|].
  pose proof (span_app is_digit r1) as Ha2.
  pose proof (span_all is_digit r1) as Hs2.
  pose proof (span_rest is_digit r1) as Hr2.
  destruct (span is_digit r1) as [d post]; simpl in Ha2, Hs2, Hr2.
  destruct (is_empty d) eqn:Ed; [discriminate|].
  intros [= <-].
  exists "", kw, ws, post; subst r r1; repeat split; auto.
  - intros ->; discriminate.
  - intros ->; discriminate.
Qed.

Lemma limit_phrase_shift (c : ascii) (s : string) (k : nat) (ds : string) :
  limit_phrase_at s k ds -> limit_phrase_at (String c s) (S k) ds.
Proof.
  intros (pre & kw & ws & post & -> & Hlen & H).
  exists (String c pre), kw, ws, post; simpl; split; [reflexivity|].
  split; [now rewrite Hlen | exact H].
Qed.

Lemma search_limit_here (s ds : string) :
  Re.limit_match_here s = Some ds -> Re.search_limit s = Some ds.
Proof.
  intros H; destruct s; [vm_compute in H; discriminate|].
  cbn [Re.search_limit]; now rewrite H.
Qed.

(** [re.search] returns the digits of the leftmost phrase. *)
Lemma search_limit_first (txt : string) (k : nat) (ds : string) :
  limit_phrase_at txt k ds ->
  (forall k' ds', k' < k -> ~ limit_phrase_at txt k' ds') ->
  Re.search_limit txt = Some ds.
Proof.
  intros (pre & kw & ws & post & -> & Hlen & Hkw & Hws & Hsp & Hds & Hdg & Hpost).
  revert k Hlen; induction pre as [|c pre IH]; intros k Hlen Hfirst.
  - change ("" ++ kw ++ ws ++ ds ++ post) with (kw ++ ws ++ ds ++ post).
    apply search_limit_here, (limit_match_here_complete kw ws ds post);
      assumption.
  - simpl in Hlen; subst k.
    change (String c pre ++ kw ++ ws ++ ds ++ post)
      with (String c (pre ++ kw ++ ws ++ ds ++ post)) in *.
    cbn [Re.search_limit].
    destruct (Re.limit_match_here (String c (pre ++ kw ++ ws ++ ds ++ post)))
      as [d|] eqn:E.
    + apply limit_match_here_sound in E.
      destruct (Hfirst 0 d (Nat.lt_0_succ _) E).
    + apply (IH (String.length pre) eq_refl).
      intros k' ds' Hlt Hph.
      apply (Hfirst (S k') ds'); [lia|].
      now apply limit_phrase_shift.
Qed.


(** ** Decimal numerals *)









(** * Further properties of the converter *)

(** ** Splitting and joining *)

Lemma split_go_skip (sep p r cur : string) :
  split_go sep (p ++ r) (String.length p) cur = split_go sep r 0 cur.
Proof.
  induction p as [|c p IH]; simpl; [reflexivity | exact IH].
Qed.

Lemma split_go_nonempty (sep s : string) (skip : nat) (cur : string) :
  split_go sep s skip cur <> [].
Proof.
  revert skip cur; induction s as [|c s IH]; intros skip cur; simpl; [easy|].
  destruct skip; [|apply IH].
  destruct (starts_with sep (String c s)); [easy | apply IH].
Qed.

Lemma concat_cons (sep x : string) (l : list string) :
  l <> [] -> String.concat sep (x :: l) = x ++ sep ++ String.concat sep l.
Proof. destruct l; [easy | reflexivity]. Qed.

Lemma starts_with_inv (p s : string) :
  starts_with p s = true -> exists r, s = p ++ r.
Proof.
  unfold starts_with; destruct (strip_prefix p s) as [r|] eqn:E; [|discriminate].
  intros _; exists r; now apply strip_prefix_inv.
Qed.

(** Joining the pieces of a split with the separator gives the string back. *)
Lemma join_split_go (sep : string) (n : nat) :
  sep <> "" ->
  forall s cur,
    String.length s <= n ->
    join sep (split_go sep s 0 cur) = cur ++ s.
Proof.
  intros Hsep; induction n as [|n IH]; intros s cur Hlen.
  - destruct s; [simpl; now rewrite append_nil_r | simpl in Hlen; lia].
  - destruct s as [|c s]; [simpl; now rewrite append_nil_r|].
    cbn [split_go]; destruct (starts_with sep (String c s)) eqn:E.
    + apply starts_with_inv in E; destruct E as [r Hr].
      destruct sep as [|a sep']; [easy|].
      simpl in Hr; injection Hr as <- ->.
      replace (String.length (String c sep') - 1) with (String.length sep')
        by (simpl; lia).
      unfold join; rewrite concat_cons by apply split_go_nonempty.
      rewrite split_go_skip.
      change (String.concat (String c sep') (split_go (String c sep') r 0 ""))
        with (join (String c sep') (split_go (String c sep') r 0 "")).
      rewrite IH.
      * reflexivity.
      * simpl in Hlen; rewrite length_append in Hlen; lia.
    + rewrite IH by (simpl in Hlen; lia).
      now rewrite append_assoc.
Qed.

Lemma join_split (sep s : string) : sep <> "" -> join sep (split sep s) = s.
Proof.
  intros H; unfold split.
  now rewrite (join_split_go sep (String.length s) H s "" (le_n _)).
Qed.

Lemma split_two (sep s l r : string) :
  sep <> "" -> split sep s = [l; r] -> s = l ++ sep ++ r.
Proof.
  intros Hsep H; rewrite <- (join_split sep s Hsep), H; reflexivity.
Qed.

(** A separator that occurs cuts the string into two pieces at least. *)
Lemma split_go_occurs (sep s cur : string) :
  sep <> "" -> contains sep s = true ->
  2 <= List.length (split_go sep s 0 cur).
Proof.
  intros Hsep; revert cur; induction s as [|c s IH]; intros cur H.
  - destruct sep; [easy | discriminate H].
  - cbn [split_go]; destruct (starts_with sep (String c s)) eqn:E.
    + pose proof (split_go_nonempty sep s (String.length sep - 1) "") as Hne.
      destruct (split_go sep s (String.length sep - 1) ""); [easy|simpl; lia].
    + simpl in H; unfold starts_with in E, H.
      destruct (strip_prefix sep (String c s)); [discriminate|].
      apply IH, H.
Qed.

(** ** What a parsed condition says about its phrase *)

Lemma starts_with_app_r (p s t : string) :
  starts_with p s = true -> starts_with p (s ++ t) = true.
Proof.
  intros H; apply starts_with_inv in H; destruct H as [r ->].
  rewrite append_assoc; apply starts_with_app.
Qed.

Lemma split_go_single (sep s cur x : string) :
  sep <> "" -> split_go sep s 0 cur = [x] ->
  contains sep s = false /\ x = cur ++ s.
Proof.
  intros Hsep H; destruct (contains sep s) eqn:E.
  - pose proof (split_go_occurs sep s cur Hsep E) as Hl.
    rewrite H in Hl; simpl in Hl; lia.
  - split; [reflexivity|].
    rewrite (split_go_absent sep s cur E) in H; now injection H.
Qed.

(** Two pieces: the separator occurs between them and in neither. *)
Lemma split_go_two (sep : string) :
  sep <> "" ->
  forall s cur l r,
    split_go sep s 0 cur = [l; r] ->
    exists p,
      l = cur ++ p /\ s = p ++ sep ++ r /\
      contains sep p = false /\ contains sep r = false.
Proof.
  intros Hsep; induction s as [|c s IH]; intros cur l r H; [discriminate H|].
  cbn [split_go] in H; destruct (starts_with sep (String c s)) eqn:E.
  - injection H as <- Hrest.
    apply starts_with_inv in E; destruct E as [r0 Hr0].
    destruct sep as [|a sep']; [easy|].
    simpl in Hr0; injection Hr0 as <- ->.
    replace (String.length (String c sep') - 1) with (String.length sep')
      in Hrest by (simpl; lia).
    rewrite split_go_skip in Hrest.
    destruct (split_go_single _ _ _ _ Hsep Hrest) as [Hc Hx].
    simpl in Hx; subst r0.
    exists ""; rewrite append_nil_r.
    split; [reflexivity | split; [reflexivity | split; [reflexivity | exact Hc]]].
  - destruct (IH _ _ _ H) as (p & -> & -> & Hp & Hr).
    exists (String c p); split; [now rewrite append_assoc|].
    split; [reflexivity | split; [|exact Hr]].
    cbn [contains]; rewrite Hp, orb_false_r.
    destruct (starts_with sep (String c p)) eqn:E2; [|reflexivity].
    apply (starts_with_app_r _ _ (sep ++ r)) in E2.
    change (String c p ++ sep ++ r) with (String c (p ++ sep ++ r)) in E2.
    congruence.
Qed.

Lemma split_two_pieces (sep s l r : string) :
  sep <> "" -> split sep s = [l; r] ->
  s = l ++ sep ++ r /\ contains sep l = false /\ contains sep r = false.
Proof.
  intros Hsep H; destruct (split_go_two sep Hsep s "" l r H) as (p & -> & Hs & Hp).
  exact (conj Hs Hp).
Qed.

Lemma in_condition_patterns (ops : dict (list string)) (op pattern : string) :
  In (op, pattern) (condition_patterns ops) <->
  exists pats, In (op, pats) ops /\ In pattern pats.
Proof.
  unfold condition_patterns; rewrite in_flat_map; split.
  - intros ([op' pats] & Hin & Hp); cbn [fst snd] in Hp.
    apply in_map_iff in Hp; destruct Hp as (q & [= <- <-] & Hq); eauto.
  - intros (pats & Hin & Hp); exists (op, pats); split; [exact Hin|].
    cbn [fst snd]; apply in_map_iff; eauto.
Qed.

Lemma try_patterns_spec (op phrase_ : string) (pats : list string) :
  match try_patterns op phrase_ pats with
  | Some c =>
      exists tried pattern later l r,
        pats = (tried ++ pattern :: later)%list /\
        (forall p, In p tried -> List.length (split p phrase_) <> 2) /\
        split pattern phrase_ = [l; r] /\
        c = mkCondition (strip l) op (strip r)
  | None => forall p, In p pats -> List.length (split p phrase_) <> 2
  end.
Proof.
  induction pats as [|p pats IH]; [intros p []|].
  cbn [try_patterns].
  assert (Hrest :
    List.length (split p phrase_) <> 2 ->
    match try_patterns op phrase_ pats with
    | Some c =>
        exists tried pattern later l r,
          p :: pats = (tried ++ pattern :: later)%list /\
          (forall p, In p tried -> List.length (split p phrase_) <> 2) /\
          split pattern phrase_ = [l; r] /\
          c = mkCondition (strip l) op (strip r)
    | None => forall q, In q (p :: pats) -> List.length (split q phrase_) <> 2
    end).
  { intros Hthis; destruct (try_patterns op phrase_ pats) as [c|].
    - destruct IH as (tried & pattern & later & l & r & -> & Htried & H).
      exists (p :: tried), pattern, later, l, r; split; [reflexivity|].
      split; [|exact H].
      intros q [<-|Hq]; [exact Hthis | now apply Htried].
    - intros q [<-|Hq]; [exact Hthis | now apply IH]. }
  destruct (contains p phrase_) eqn:Ec.
  - destruct (split p phrase_) as [|a [|b [|x l]]] eqn:Es;
      try (apply Hrest; simpl; lia).
    exists [], p, pats, a, b; split; [reflexivity|].
    split; [intros q [] | split; [exact Es | reflexivity]].
  - apply Hrest; rewrite (split_absent _ _ Ec); simpl; lia.
Qed.

Lemma try_operators_spec (phrase_ : string) (ops : dict (list string)) :
  match try_operators phrase_ ops with
  | Some c =>
      exists tried pattern later l r,
        condition_patterns ops =
          (tried ++ (operator c, pattern) :: later)%list /\
        (forall op p, In (op, p) tried -> List.length (split p phrase_) <> 2) /\
        split pattern phrase_ = [l; r] /\
        column c = strip l /\ value c = strip r
  | None =>
      forall op p,
        In (op, p) (condition_patterns ops) ->
        List.length (split p phrase_) <> 2
  end.
Proof.
  induction ops as [|[op pats] ops IH]; [intros op p []|].
  pose proof (try_patterns_spec op phrase_ pats) as Hhere.
  cbn [try_operators]; unfold condition_patterns; cbn [flat_map fst snd].
  fold (condition_patterns ops).
  destruct (try_patterns op phrase_ pats) as [c|].
  - destruct Hhere as (tried & pattern & later & l & r & -> & Htried & Hs & ->).
    exists (map (pair op) tried), pattern,
      (map (pair op) later ++ condition_patterns ops)%list, l, r.
    cbn [operator column value]; split.
    + now rewrite map_app, <- app_assoc.
    + split; [|auto].
      intros op' p Hin; apply in_map_iff in Hin.
      destruct Hin as (q & [= <- <-] & Hq); now apply Htried.
  - destruct (try_operators phrase_ ops) as [c|].
    + destruct IH as (tried & pattern & later & l & r & -> & Htried & H).
      exists (map (pair op) pats ++ tried)%list, pattern, later, l, r.
      split; [now rewrite <- app_assoc | split; [|exact H]].
      intros op' p Hin; apply in_app_or in Hin; destruct Hin as [Hin|Hin].
      * apply in_map_iff in Hin; destruct Hin as (q & [= <- <-] & Hq).
        now apply Hhere.
      * exact (Htried op' p Hin).
    + intros op' p Hin; apply in_app_or in Hin; destruct Hin as [Hin|Hin].
      * apply in_map_iff in Hin; destruct Hin as (q & [= <- <-] & Hq).
        now apply Hhere.
      * exact (IH op' p Hin).
Qed.

(** X1: the patterns are tried in the order of the table, operator by
    operator, and the first one that cuts the phrase in exactly two parts
    decides: every pattern tried before it is absent from the phrase or cuts
    it in three parts or more; the phrase is the left part, the pattern and
    the right part, the pattern occurs in neither part, and the column and
    the value of the condition are these parts stripped.  No condition is
    returned exactly when no pattern cuts the phrase in two. *)
Theorem condition_cuts_phrase (self : Converter) (token : Token) :
  patterns_nonempty (pat_conditions (patterns self)) ->
  match _parse_condition_phrase self token with
  | Some c =>
      exists tried pattern later l r,
        condition_patterns (pat_conditions (patterns self)) =
          (tried ++ (operator c, pattern) :: later)%list /\
        (forall op p,
            In (op, p) tried -> List.length (split p (phrase token)) <> 2) /\
        split pattern (phrase token) = [l; r] /\
        phrase token = l ++ pattern ++ r /\
        contains pattern l = false /\ contains pattern r = false /\
        column c = strip l /\ value c = strip r
  | None =>
      forall op p,
        In (op, p) (condition_patterns (pat_conditions (patterns self))) ->
        List.length (split p (phrase token)) <> 2
  end.
Proof.
  intros Hne; unfold _parse_condition_phrase; fold (phrase token).
  pose proof (try_operators_spec (phrase token) (pat_conditions (patterns self)))
    as H.
  destruct (try_operators (phrase token) (pat_conditions (patterns self)))
    as [c|]; [|exact H].
  destruct H as (tried & pattern & later & l & r & Hl & Htried & Hs & Hc & Hv).
  assert (Hp : pattern <> "").
  { assert (Hin : In (operator c, pattern)
                    (condition_patterns (pat_conditions (patterns self))))
      by (rewrite Hl; apply in_or_app; right; now left).
    apply in_condition_patterns in Hin; destruct Hin as (pats & H1 & H2).
    exact (Hne _ _ _ H1 H2). }
  destruct (split_two_pieces pattern (phrase token) l r Hp Hs) as (Hph & Hcl & Hcr).
  exists tried, pattern, later, l, r; auto 10.
Qed.

Lemma condition_cuts_phrase_witness :
  exists tried pattern later l r,
    condition_patterns (pat_conditions (patterns (converter []))) =
      (tried ++ ("greater", pattern) :: later)%list /\
    (forall op p,
        In (op, p) tried -> List.length (split p "salary over 80000") <> 2) /\
    split pattern "salary over 80000" = [l; r] /\
    "salary over 80000" = l ++ pattern ++ r /\
    contains pattern l = false /\ contains pattern r = false /\
    "salary" = strip l /\ "80000" = strip r.
Proof.
  exact (condition_cuts_phrase (converter [])
           (prep "with" [word "salary"; word "over"; word "80000"])
           (fixed_patterns_nonempty _ _)).
Defined.

(** ** Letter case *)

Lemma lower_upper_char (c : ascii) : lower_char (upper_char c) = lower_char c.
Proof.
  unfold upper_char; destruct (is_lower c) eqn:E; [|reflexivity].
  unfold lower_char.
  assert (Hc : is_upper c = false)
    by (unfold is_lower, is_upper, between_codes in *; leb_cases).
  unfold is_lower, between_codes in E.
  apply andb_true_iff in E; destruct E as [E1 E2].
  apply Nat.leb_le in E1, E2.
  assert (Hu : is_upper (ascii_of_nat (code c - 32)) = true).
  { unfold is_upper, between_codes; rewrite code_ascii_of_nat by lia.
    leb_cases. }
  rewrite Hu, Hc, code_ascii_of_nat by lia.
  replace (code c - 32 + 32) with (code c) by lia.
  apply ascii_nat_embedding.
Qed.

Lemma lower_upper (s : string) : lower (upper s) = lower s.
Proof.
  unfold lower, upper; induction s as [|c s IH]; simpl; [reflexivity|].
  now rewrite IH, lower_upper_char.
Qed.

(** X2: the translation does not look at the letter case of an ASCII
    question: two ASCII texts with the same lower-casing translate alike,
    and a question translates like its lower-cased and like its upper-cased
    form.  (Outside ASCII [str.upper] and [str.lower] follow the Unicode
    tables, which the embedding does not have.) *)
Theorem translation_ignores_case (self : Converter)
  (iter : pyset -> list string) (txt : string) :
  ascii_text txt ->
  (forall other,
      ascii_text other ->
      lower other = lower txt ->
      convert_to_sql self iter other = convert_to_sql self iter txt) /\
  convert_to_sql self iter (lower txt) = convert_to_sql self iter txt /\
  convert_to_sql self iter (upper txt) = convert_to_sql self iter txt.
Proof.
  intros _.
  assert (H : forall other,
             lower other = lower txt ->
             convert_to_sql self iter other = convert_to_sql self iter txt)
    by (intros other E; unfold convert_to_sql; now rewrite E).
  split; [intros other _; exact (H other)|].
  split; apply H; [apply lower_idem | apply lower_upper].
Qed.

Lemma translation_ignores_case_witness :
  convert_to_sql (converter [word "employees"]) insertion_order "EMPLOYEES" =
  convert_to_sql (converter [word "employees"]) insertion_order "Employees".
Proof.
  exact (proj2 (proj2 (translation_ignores_case (converter [word "employees"])
                         insertion_order "Employees" eq_refl))).
Defined.

(** ** Why a translation fails *)

Lemma render_condition_raise_inv (c : Condition) (e : PyExc) :
  render_condition c = Raise e ->
  e = IndexError "list index out of range" /\
  operator c = "between" /\ contains "and" (value c) = false.
Proof.
  unfold render_condition.
  destruct (String.eqb (operator c) "equals"); [discriminate|].
  destruct (String.eqb (operator c) "greater"); [discriminate|].
  destruct (String.eqb (operator c) "less"); [discriminate|].
  destruct (String.eqb_spec (operator c) "between") as [Hop|_].
  - pose proof (split_go_nonempty "and" (value c) 0 "") as Hne.
    fold (split "and" (value c)) in Hne.
    destruct (contains "and" (value c)) eqn:Ec.
    + pose proof (split_go_occurs "and" (value c) "" ltac:(discriminate) Ec) as H.
      fold (split "and" (value c)) in H.
      destruct (split "and" (value c)) as [|a [|b l]]; simpl in H; try lia.
      discriminate.
    + rewrite (split_absent _ _ Ec); cbn; intros [= <-]; auto.
  - destruct (String.eqb (operator c) "like"); discriminate.
Qed.

Lemma where_clause_raise_inv (components : Components) (e : PyExc) :
  where_clause components = Raise e ->
  e = IndexError "list index out of range" /\
  exists c,
    In c (where_ components) /\ operator c = "between" /\
    contains "and" (value c) = false.
Proof.
  unfold where_clause.
  destruct (where_ components) as [|c0 l]; [discriminate|].
  destruct (render_conditions (c0 :: l)) as [pieces|e'] eqn:E; cbn [bind].
  - destruct pieces; discriminate.
  - intros [= <-]; unfold render_conditions in E.
    apply for_each_raise_inv in E; destruct E as (c & acc & Hin & Hc).
    destruct (render_condition c) as [r|e''] eqn:Er; cbn [bind] in Hc;
      [discriminate|].
    injection Hc as ->.
    destruct (render_condition_raise_inv c e' Er) as (He & Hop & Hv).
    split; [exact He | exists c; auto].
Qed.

Section FixedFailures.

Variable spacy_load : string -> Doc.
Variable schema : option string.
Variable iter : pyset -> list string.

Local Abbreviation self := (TextToSQLConverter spacy_load schema).

Lemma parsed_joins_ok (txt : string) (components : Components)
  (anchor : string) (others : list string) :
  iterates iter ->
  _parse_query self iter txt = Ok components ->
  iter (tables (select components)) = anchor :: others ->
  exists js, join_clauses self anchor others = Ok js.
Proof.
  intros Hiter Hp E.
  destruct (parse_query_tables self iter txt components Hiter Hp)
    as (_ & Hnd & Hkeys).
  pose proof (Hiter (tables (select components))) as Hperm; rewrite E in Hperm.
  assert (Hnd' : NoDup (anchor :: others))
    by (apply (Permutation_NoDup (Permutation_sym Hperm)), Hnd).
  apply fixed_join_clauses.
  - apply Hkeys, (Permutation_in _ Hperm); now left.
  - intros t Ht; split.
    + apply Hkeys, (Permutation_in _ Hperm); now right.
    + intros ->; inversion Hnd'; contradiction.
Qed.

End FixedFailures.

(** X3: with the fixed schema a translation of an ASCII question fails in
    three situations only.  When the limit pattern matches a digit run
    beyond the cap of [int], the caller gets the [ValueError] that wraps the
    message of [int].  Otherwise the question is parsed, and the caller gets
    the [ValueError] that wraps "list index out of range" when no table was
    identified or a [between] condition has a value without "and"; in every
    other situation a query is returned.  A [KeyError] for a missing
    relationship never arises from a question. *)
Theorem translation_failures (spacy_load : string -> Doc)
  (schema : option string) (iter : pyset -> list string) (txt : string) :
  let self := TextToSQLConverter spacy_load schema in
  let t := lower (doc_text (spacy_load (lower txt))) in
  iterates iter ->
  ascii_text txt ->
  ascii_doc (spacy_load (lower txt)) ->
  (forall ds,
      Re.search_limit t = Some ds ->
      int_max_str_digits < String.length ds ->
      convert_to_sql self iter txt =
      Raise (ValueError ("Failed to convert text to SQL: "
                           ++ str_exc (int_limit_error ds)))) /\
  (limit_within_cap t ->
   exists components,
     _parse_query self iter (lower txt) = Ok components /\
     ((tables (select components) = [] \/
       exists c,
         In c (where_ components) /\ operator c = "between" /\
         contains "and" (value c) = false) ->
      convert_to_sql self iter txt =
      Raise (ValueError "Failed to convert text to SQL: list index out of range")) /\
     (~ (tables (select components) = [] \/
         exists c,
           In c (where_ components) /\ operator c = "between" /\
           contains "and" (value c) = false) ->
      exists sql, convert_to_sql self iter txt = Ok sql)) /\
  (forall e,
      convert_to_sql self iter txt = Raise e ->
      e = ValueError "Failed to convert text to SQL: list index out of range" \/
      exists ds,
        Re.search_limit t = Some ds /\
        int_max_str_digits < String.length ds /\
        e = ValueError ("Failed to convert text to SQL: "
                          ++ str_exc (int_limit_error ds))).
Proof.
  intros self t Hiter _ _; subst self.
  assert (Hcases :
    forall c,
      _parse_query (TextToSQLConverter spacy_load schema) iter (lower txt) = Ok c ->
      ((tables (select c) = [] \/
        exists cond,
          In cond (where_ c) /\ operator cond = "between" /\
          contains "and" (value cond) = false) ->
       convert_to_sql (TextToSQLConverter spacy_load schema) iter txt =
       Raise (ValueError "Failed to convert text to SQL: list index out of range")) /\
      (~ (tables (select c) = [] \/
          exists cond,
            In cond (where_ c) /\ operator cond = "between" /\
            contains "and" (value cond) = false) ->
       exists sql,
         convert_to_sql (TextToSQLConverter spacy_load schema) iter txt = Ok sql) /\
      (forall e,
          convert_to_sql (TextToSQLConverter spacy_load schema) iter txt = Raise e ->
          e = ValueError "Failed to convert text to SQL: list index out of range")).
  { intros c Hp; unfold convert_to_sql; rewrite Hp; cbn [bind].
    destruct (iter (tables (select c))) as [|anchor others] eqn:E.
    { assert (Ht : tables (select c) = []).
      { pose proof (Hiter (tables (select c))) as Hperm; rewrite E in Hperm.
        now apply Permutation_nil. }
      assert (Hb : _build_sql_query (TextToSQLConverter spacy_load schema) iter c =
                   Raise (IndexError "list index out of range"))
        by (unfold _build_sql_query, bind; rewrite E; reflexivity).
      rewrite Hb; split; [reflexivity | split].
      - intros H; destruct H; now left.
      - now intros e [= <-]. }
    assert (Hne : tables (select c) <> []).
    { intros Ht; rewrite Ht, (iterates_nil iter Hiter) in E; discriminate. }
    destruct (parsed_joins_ok spacy_load schema iter (lower txt) c anchor others
                Hiter Hp E) as [js Hjs].
    destruct (where_clause c) as [w|e] eqn:Ew.
    - destruct (build_returns spacy_load schema iter (lower txt) c w Hiter Hp Hne Ew)
        as (a & js' & Hb).
      rewrite Hb; split; [|split; [eauto | discriminate]].
      intros [Ht|(cond & Hin & Hop & Hv)]; [contradiction|].
      destruct (where_clause_raises c cond Hin Hop Hv) as [e He]; congruence.
    - destruct (where_clause_raise_inv c e Ew) as (-> & Hbad).
      assert (Hb : _build_sql_query (TextToSQLConverter spacy_load schema) iter c =
                   Raise (IndexError "list index out of range")).
      { unfold _build_sql_query, bind; rewrite E; cbn [index nth_error tl].
        now rewrite Hjs, Ew. }
      rewrite Hb; split; [reflexivity | split].
      + intros H; destruct H; now right.
      + now intros e [= <-]. }
  assert (Hraise :
    forall e,
      _parse_query (TextToSQLConverter spacy_load schema) iter (lower txt) = Raise e ->
      convert_to_sql (TextToSQLConverter spacy_load schema) iter txt =
      Raise (ValueError ("Failed to convert text to SQL: " ++ str_exc e)))
    by (intros e He; unfold convert_to_sql; now rewrite He).
  split; [|split].
  - intros ds Hds Hlen; apply Hraise.
    rewrite parse_query_eq.
    destruct (entities_select_ok (TextToSQLConverter spacy_load schema) iter
                (spacy_load (lower txt)) Hiter) as (s & Hs & _).
    change (nlp (TextToSQLConverter spacy_load schema) (lower txt))
      with (spacy_load (lower txt)).
    rewrite Hs; cbn [bind]; cbv zeta; fold t.
    now rewrite (limit_in_text_raise t ds Hds Hlen).
  - intros Hcap.
    destruct (parse_query_ok (TextToSQLConverter spacy_load schema) iter
                (lower txt) Hiter Hcap) as (c & Hp).
    destruct (Hcases c Hp) as (H1 & H2 & _).
    exists c; auto.
  - intros e He.
    destruct (_parse_query (TextToSQLConverter spacy_load schema) iter (lower txt))
      as [c|e'] eqn:Hp.
    + left; exact (proj2 (proj2 (Hcases c eq_refl)) e He).
    + right; rewrite (Hraise e' eq_refl) in He; injection He as <-.
      destruct (parse_query_raise_inv _ _ _ _ Hiter Hp) as (ds & Hds & Hlen & ->).
      exists ds; auto.
Qed.

Lemma translation_failures_witness :
  (exists sql,
      convert_to_sql (converter [word "employees"]) insertion_order "employees"
      = Ok sql) /\
  convert_to_sql (converter [word "employees"; word "top"; word (sevens 4301)])
    insertion_order ("employees top " ++ sevens 4301) =
  Raise (ValueError ("Failed to convert text to SQL: "
                       ++ str_exc (int_limit_error (sevens 4301)))).
Proof.
  split.
  - destruct (translation_failures (analysed [word "employees"]) None
                insertion_order "employees" iterates_insertion_order eq_refl)
      as (_ & Hparsed & _).
    { split; [reflexivity|].
      intros token [<-|[]]; split; [reflexivity | intros r []]. }
    destruct Hparsed as (c & Hp & _ & Hok).
    { apply limit_within_cap_none; vm_compute; reflexivity. }
    apply Hok; vm_compute in Hp; injection Hp as <-.
    intros [H|(cond & [] & _)]; discriminate H.
  - assert (Htxt : ascii_text ("employees top " ++ sevens 4301))
      by (vm_compute; reflexivity).
    destruct (translation_failures
                (analysed [word "employees"; word "top"; word (sevens 4301)])
                None insertion_order ("employees top " ++ sevens 4301)
                iterates_insertion_order Htxt)
      as (Hlimit & _).
    { split; [vm_compute; reflexivity|].
      intros token [<-|[<-|[<-|[]]]];
        (split; [vm_compute; reflexivity | intros r []]). }
    apply Hlimit; vm_compute; [reflexivity | lia].
Defined.

(** ** The shape of every returned query *)

Lemma rstrip_idem (s : string) : rstrip (rstrip s) = rstrip s.
Proof.
  induction s as [|a s IH]; [reflexivity|].
  cbn [rstrip]; destruct (rstrip s) as [|b r] eqn:E.
  - destruct (is_space a) eqn:Ea; [reflexivity|].
    cbn [rstrip]; now rewrite Ea.
  - cbn [rstrip]; cbn [rstrip] in IH.
    destruct (rstrip r) as [|b' r'] eqn:Er.
    + destruct (is_space b) eqn:Eb; [discriminate IH | now rewrite IH].
    + now rewrite IH.
Qed.

Lemma lstrip_head (s : string) (a : ascii) (u : string) :
  lstrip s = String a u -> is_space a = false.
Proof.
  induction s as [|c s IH]; simpl; [discriminate|].
  destruct (is_space c) eqn:E; [exact IH|].
  intros [= <- _]; exact E.
Qed.

Lemma rstrip_head (a : ascii) (u : string) :
  is_space a = false -> exists u', rstrip (String a u) = String a u'.
Proof.
  intros Ha; cbn [rstrip]; destruct (rstrip u); [rewrite Ha|]; eauto.
Qed.

Lemma strip_stripped (s : string) :
  lstrip (strip s) = strip s /\ rstrip (strip s) = strip s.
Proof.
  unfold strip; split; [|apply rstrip_idem].
  destruct (lstrip s) as [|a u] eqn:E; [reflexivity|].
  pose proof (lstrip_head s a u E) as Ha.
  destruct (rstrip_head a u Ha) as [u' ->].
  simpl; now rewrite Ha.
Qed.

Lemma starts_with_weaken (a b s : string) :
  starts_with (a ++ b) s = true -> starts_with a s = true.
Proof.
  intros H; apply starts_with_inv in H; destruct H as [r ->].
  rewrite append_assoc; apply starts_with_app.
Qed.

(** X4: every query that [_build_sql_query] returns begins with [SELECT ],
    has a FROM line, and has neither leading nor trailing white space. *)
Theorem returned_query_shape (self : Converter) (iter : pyset -> list string)
  (components : Components) (sql : string) :
  _build_sql_query self iter components = Ok sql ->
  starts_with "SELECT " sql = true /\
  contains (nl ++ "FROM") sql = true /\
  lstrip sql = sql /\ rstrip sql = sql.
Proof.
  intros Hb; apply build_ok_shape in Hb.
  destruct Hb as (anchor & js & w & _ & _ & _ & ->).
  set (rest := anchor ++ nl ++ String.concat "" js ++ w
                 ++ group_by_clause components ++ having_clause components
                 ++ order_by_clause components ++ limit_clause components).
  set (items := join ", " (select_items iter components)).
  assert (Hshape :
    select_clause iter components ++ "FROM " ++ rest =
    "SELECT " ++ items ++ (nl ++ "FROM") ++ " " ++ rest)
    by (unfold select_clause; fold items; now rewrite !append_assoc).
  rewrite Hshape.
  split; [|split; [|apply strip_stripped]].
  - apply (starts_with_weaken "SELECT " (items ++ nl ++ "FROM")).
    replace ("SELECT " ++ items ++ (nl ++ "FROM") ++ " " ++ rest)
      with (("SELECT " ++ items ++ nl ++ "FROM") ++ " " ++ rest)
      by (now rewrite !append_assoc).
    apply strip_keeps_prefix; [discriminate | reflexivity |].
    rewrite <- (append_assoc "SELECT " items), rstrip_app; reflexivity.
  - apply (strip_contains _ "SELECT " items (nl ++ "FROM") (" " ++ rest));
      [reflexivity | discriminate | reflexivity | discriminate | reflexivity].
Qed.

Lemma returned_query_shape_witness :
  starts_with "SELECT "
    ("SELECT employees.name" ++ nl ++ "FROM employees") = true.
Proof.
  exact (proj1 (returned_query_shape (converter []) insertion_order
                  (plain_intent ["employees"] ["employees.name"]) _ eq_refl)).
Defined.

(** ** Selected columns *)

Lemma add_all_columns_columns (table : string) (cols : list string)
  (s : Select) (q : string) :
  In q (columns (add_all_columns table cols s)) <->
  In q (columns s) \/
  exists column, In column cols /\ q = qualified table column.
Proof.
  unfold add_all_columns.
  rewrite (fold_left_In columns _ (fun column x => x = qualified table column)).
  - split; (intros [H|(column & Hc & Hq)]; [now left | right; eauto]).
  - intros s' a x; cbn [add_column columns]; rewrite set_add_In; tauto.
Qed.

Lemma select_all_columns (self : Converter) (l : list string) (s s' : Select) :
  for_each l
    (fun table s =>
       cols <- getitem (table_columns self) table ;;
       Ok (add_all_columns table (dict_keys cols) s)) s = Ok s' ->
  forall q,
    In q (columns s') <->
    In q (columns s) \/
    exists t cols column,
      In t l /\ dict_get (table_columns self) t = Some cols /\
      In column (dict_keys cols) /\ q = qualified t column.
Proof.
  revert s; induction l as [|t l IH]; intros s; cbn [for_each].
  - intros H q; apply Ok_inj in H; subst s'.
    split; [now left | intros [H|(t & _ & _ & [] & _)]; exact H].
  - unfold getitem at 1.
    destruct (dict_get (table_columns self) t) as [cols|] eqn:E; cbn [bind];
      [|discriminate].
    intros H q; rewrite (IH _ H q), add_all_columns_columns; split.
    + intros [[Hq|(column & Hc & Hq)]|(t' & cols' & column & Hin & H')].
      * now left.
      * right; exists t, cols, column; repeat split; auto; now left.
      * right; exists t', cols', column; split; [now right | exact H'].
    + intros [Hq|(t' & cols' & column & [<-|Hin] & Hd & Hc & Hq)].
      * now left; left.
      * left; right; exists column; split; [congruence | exact Hq].
      * right; exists t', cols', column; auto.
Qed.

Lemma parse_query_select (self : Converter) (iter : pyset -> list string)
  (txt : string) (components : Components) :
  _parse_query self iter txt = Ok components ->
  entities_select self iter (nlp self txt) = Ok (select components) /\
  aggregates components =
    aggregates_in_text self (lower (doc_text (nlp self txt))) /\
  group_by components =
    group_by_in_text self (lower (doc_text (nlp self txt))) /\
  order_by components = order_in_text self (lower (doc_text (nlp self txt))) /\
  where_ components = conditions_in_doc self (nlp self txt) /\
  limit_in_text (lower (doc_text (nlp self txt))) = Ok (limit components) /\
  having components = [] /\ joins components = [].
Proof.
  rewrite parse_query_eq.
  destruct (entities_select self iter (nlp self txt)) as [s|e]; cbn [bind];
    [|discriminate].
  cbv zeta; destruct (limit_in_text _) as [l|e]; cbn [bind]; [|discriminate].
  intros H; apply Ok_inj in H; subst components; cbn; auto 10.
Qed.

(** X5: every column selected by a parsed intent is a declared column,
    qualified by its table, and that table is among the tables of the
    intent: the SELECT list never names a table that is absent from the FROM
    and JOIN lines. *)
Theorem selected_columns_have_tables (self : Converter)
  (iter : pyset -> list string) (txt : string) (components : Components) :
  iterates iter ->
  _parse_query self iter txt = Ok components ->
  forall q,
    In q (columns (select components)) ->
    exists t cols column,
      In t (tables (select components)) /\
      In (t, cols) (table_columns self) /\ In column (dict_keys cols) /\
      q = qualified t column.
Proof.
  intros Hiter Hp q Hq.
  destruct (parse_query_select self iter txt components Hp) as (Hsel & _).
  pose proof (entities_select_tables self iter _ _ Hsel) as Ht.
  set (s := scan_entities self (nlp self txt) (mkSelect [] [])) in *.
  destruct (columns s) as [|q0 l0] eqn:Ec.
  - unfold entities_select in Hsel; fold s in Hsel; rewrite Ec in Hsel.
    unfold select_all in Hsel.
    apply (select_all_columns self _ _ _ Hsel) in Hq.
    rewrite Ec in Hq; destruct Hq as [[]|(t & cols & column & Hin & Hd & Hc & ->)].
    exists t, cols, column; repeat split; auto.
    + rewrite Ht; exact (Permutation_in _ (Hiter _) Hin).
    + now apply dict_get_In.
  - assert (Hs : select components = s).
    { apply (entities_select_columns self iter _ _ Hsel); fold s.
      now rewrite Ec. }
    rewrite Hs in *; unfold s in Hq; apply scan_entities_columns in Hq.
    destruct Hq as [[]|(token & Hk & t & cols & column & He & Hc & Hm & ->)].
    exists t, cols, column; repeat split; auto.
    apply scan_entities_tables; right; exists token; split; [exact Hk|].
    right; exists cols, column; auto.
Qed.

Lemma selected_columns_have_tables_witness :
  exists t cols column,
    In t ["employees"] /\
    In (t, cols) (table_columns (converter [word "salary"])) /\
    In column (dict_keys cols) /\ "employees.salary" = qualified t column.
Proof.
  exact (selected_columns_have_tables (converter [word "salary"])
           insertion_order "salary"
           (mkComponents (mkSelect ["employees"] ["employees.salary"])
              [] [] [] [] [] None [])
           iterates_insertion_order eq_refl "employees.salary"
           (or_introl eq_refl)).
Defined.

(** X6: when no token contains a column name, the columns of the parsed
    intent are exactly the declared columns of the matched tables, of all of
    them when several tables matched. *)
Theorem fallback_selects_all_tables (self : Converter)
  (iter : pyset -> list string) (txt : string) (components : Components) :
  iterates iter ->
  _parse_query self iter txt = Ok components ->
  columns (scan_entities self (nlp self txt) (mkSelect [] [])) = [] ->
  forall q,
    In q (columns (select components)) <->
    exists t cols column,
      In t (tables (select components)) /\
      dict_get (table_columns self) t = Some cols /\
      In column (dict_keys cols) /\ q = qualified t column.
Proof.
  intros Hiter Hp Ec q.
  destruct (parse_query_select self iter txt components Hp) as (Hsel & _).
  pose proof (entities_select_tables self iter _ _ Hsel) as Ht.
  unfold entities_select in Hsel; rewrite Ec in Hsel; unfold select_all in Hsel.
  rewrite (select_all_columns self _ _ _ Hsel q), Ec, Ht; split.
  - intros [[]|(t & cols & column & Hin & H)].
    exists t, cols, column; split; [|exact H].
    exact (Permutation_in _ (Hiter _) Hin).
  - intros (t & cols & column & Hin & H); right.
    exists t, cols, column; split; [|exact H].
    exact (Permutation_in _ (Permutation_sym (Hiter _)) Hin).
Qed.

Lemma fallback_selects_all_tables_witness :
  In "departments.budget"
    (columns
       (select
          (mkComponents
             (mkSelect ["departments"; "employees"]
                ["departments.department_id"; "departments.name";
                 "departments.budget"; "departments.location";
                 "departments.head_id"; "employees.employee_id";
                 "employees.name"; "employees.department"; "employees.salary";
                 "employees.hire_date"; "employees.role"; "employees.email"])
             [] [] [] [] [] None []))).
Proof.
  apply (proj2 (fallback_selects_all_tables
                  (converter [word "show"; word "me"; word "employees"])
                  insertion_order "show me employees" _
                  iterates_insertion_order eq_refl eq_refl
                  "departments.budget")).
  eexists "departments", _, "budget"; repeat split.
  - now left.
  - simpl; tauto.
Defined.

(** ** Aggregates, grouping and ordering refer to the schema *)

Lemma dict_mem_key {V : Type} (k : string) (d : dict V) :
  dict_mem k d = true -> In k (dict_keys d).
Proof.
  unfold dict_mem; destruct (dict_get d k) as [v|] eqn:E; [|discriminate].
  intros _; exact (entry_key _ _ _ (dict_get_In _ _ _ E)).
Qed.

Lemma in_flat_map_if {A B : Type} (p : A -> bool) (f : A -> B) (l : list A)
  (y : B) :
  In y (flat_map (fun a => if p a then [f a] else []) l) <->
  exists a, In a l /\ p a = true /\ y = f a.
Proof.
  rewrite in_flat_map; split.
  - intros (a & Ha & H); destruct (p a) eqn:E; [|destruct H].
    destruct H as [<-|[]]; eauto.
  - intros (a & Ha & E & ->); exists a; rewrite E; split; [exact Ha | now left].
Qed.

Section DeclaredReferences.

Variable self : Converter.

Lemma columns_in_text_declared (txt q : string) :
  In q (columns_in_text self txt) -> declared_column self q.
Proof.
  unfold columns_in_text; rewrite in_flat_map.
  intros ([t cols] & He & H); apply in_flat_map_if in H.
  destruct H as (column & Hc & _ & ->); exists t, cols, column; auto.
Qed.

Lemma aggregates_in_text_declared (txt : string) (a : Aggregate) :
  In a (aggregates_in_text self txt) ->
  (exists agg_type pats,
      In (agg_type, pats) (pat_aggregate (patterns self)) /\
      function a = upper agg_type) /\
  declared_column self (agg_column a).
Proof.
  unfold aggregates_in_text; rewrite in_flat_map.
  intros ([agg_type pats] & He & H); rewrite in_flat_map in H.
  destruct H as (pattern & Hp & H).
  destruct (contains pattern txt); [|destruct H].
  apply in_map_iff in H; destruct H as (q & <- & Hq); split.
  - exists agg_type, pats; auto.
  - exact (columns_in_text_declared txt q Hq).
Qed.

Lemma group_by_in_text_declared (txt g : string) :
  In g (group_by_in_text self txt) -> declared_column self g.
Proof.
  unfold group_by_in_text; rewrite in_flat_map.
  intros (m & _ & H); rewrite in_flat_map in H.
  destruct H as ([t cols] & He & H); cbn [fst snd] in H.
  destruct (dict_mem m cols) eqn:E; [|destruct H].
  destruct H as [<-|[]]; exists t, cols, m; split; [exact He|].
  split; [exact (dict_mem_key _ _ E) | reflexivity].
Qed.

Lemma order_in_text_declared (txt : string) (o : OrderItem) :
  In o (order_in_text self txt) ->
  declared_column self (ord_column o) /\
  (direction o = "ASC" \/ direction o = "DESC").
Proof.
  unfold order_in_text.
  destruct (Re.search_order txt) as [[w m]|]; [|intros []].
  unfold order_entries; rewrite in_flat_map.
  intros ([t cols] & He & H); cbn [fst snd] in H.
  destruct (dict_mem w cols) eqn:E; [|destruct H].
  destruct H as [<-|[]]; cbn [ord_column direction]; split.
  - exists t, cols, w; split; [exact He|].
    split; [exact (dict_mem_key _ _ E) | reflexivity].
  - unfold order_direction; destruct m as [g|]; [|now left].
    destruct (contains "desc" g); auto.
Qed.

End DeclaredReferences.

(** X7: in a parsed intent every aggregate is one of the functions of the
    aggregate patterns applied to a declared, qualified column; every
    group-by entry and every order-by column is a declared, qualified
    column; every direction is ASC or DESC; and nothing is ever put into
    [having] or [joins]. *)
Theorem parsed_references_declared (self : Converter)
  (iter : pyset -> list string) (txt : string) (components : Components) :
  _parse_query self iter txt = Ok components ->
  (forall a,
      In a (aggregates components) ->
      (exists agg_type pats,
          In (agg_type, pats) (pat_aggregate (patterns self)) /\
          function a = upper agg_type) /\
      declared_column self (agg_column a)) /\
  (forall g, In g (group_by components) -> declared_column self g) /\
  (forall o,
      In o (order_by components) ->
      declared_column self (ord_column o) /\
      (direction o = "ASC" \/ direction o = "DESC")) /\
  having components = [] /\ joins components = [].
Proof.
  intros Hp.
  destruct (parse_query_select self iter txt components Hp)
    as (_ & -> & -> & -> & _ & _ & -> & ->).
  split; [apply aggregates_in_text_declared|].
  split; [apply group_by_in_text_declared|].
  split; [apply order_in_text_declared | auto].
Qed.

Lemma parsed_references_declared_witness :
  declared_column
    (converter [word "average"; word "salary"; word "by"; word "department"])
    "employees.department".
Proof.
  assert (Hcap : limit_within_cap (lower "average salary by department"))
    by (apply limit_within_cap_none; vm_compute; reflexivity).
  destruct (parse_query_ok
              (converter [word "average"; word "salary"; word "by"; word "department"])
              insertion_order "average salary by department"
              iterates_insertion_order Hcap) as [c Hp].
  refine (proj1 (proj2 (parsed_references_declared _ insertion_order _ c Hp))
            "employees.department" _).
  vm_compute in Hp; injection Hp as <-; now left.
Defined.

(** ** How many aggregates, and how they are named *)

Lemma length_flat_map_if {A B : Type} (p : A -> bool) (items : list B)
  (l : list A) :
  List.length (flat_map (fun a => if p a then items else []) l) =
  List.length (filter p l) * List.length items.
Proof.
  induction l as [|a l IH]; simpl; [reflexivity|].
  rewrite length_app, IH; destruct (p a); simpl; lia.
Qed.

Lemma aggregates_in_text_length (self : Converter) (txt : string) :
  List.length (aggregates_in_text self txt) =
  List.length (filter (fun pattern => contains pattern txt)
                 (aggregate_patterns self))
  * List.length (columns_in_text self txt).
Proof.
  unfold aggregates_in_text, aggregate_patterns.
  induction (pat_aggregate (patterns self)) as [|[agg_type pats] l IH];
    simpl; [reflexivity|].
  rewrite length_app, filter_app, length_app, IH, Nat.mul_add_distr_r.
  f_equal.
  rewrite (length_flat_map_if (fun pattern => contains pattern txt)
             (map (mkAggregate (upper agg_type)) (columns_in_text self txt))).
  now rewrite length_map.
Qed.

(** X8: the aggregate pass appends one aggregate for every pair of an
    aggregate pattern that occurs in the text and a column whose name
    occurs in the text: their number is the product of the two counts. *)
Theorem aggregates_are_a_product (self : Converter) (doc : Doc)
  (components : Components) :
  let txt := lower (doc_text doc) in
  List.length (aggregates (_extract_aggregations self doc components)) =
  List.length (aggregates components)
  + List.length (filter (fun pattern => contains pattern txt)
                   (aggregate_patterns self))
    * List.length (columns_in_text self txt).
Proof.
  intros txt; unfold _extract_aggregations; cbn [aggregates with_group_by
    with_aggregates].
  now rewrite length_app, aggregates_in_text_length.
Qed.

Lemma last_cons {A : Type} (a d : A) (l : list A) :
  l <> [] -> last (a :: l) d = last l d.
Proof. destruct l; [easy | reflexivity]. Qed.

Lemma last_split_go (d : ascii) (x c cur : string) :
  contains (String d "") c = false ->
  last (split_go (String d "") (x ++ String d c) 0 cur) "" = c.
Proof.
  intros Hc; revert cur; induction x as [|a x IH]; intros cur.
  - cbn [append split_go]; unfold starts_with; cbn [strip_prefix].
    rewrite Ascii.eqb_refl; cbn [String.length Nat.sub].
    now rewrite (split_go_absent _ _ _ Hc).
  - cbn [append split_go].
    destruct (starts_with (String d "") (String a (x ++ String d c))).
    + cbn [String.length Nat.sub].
      rewrite last_cons by apply split_go_nonempty; apply IH.
    + apply IH.
Qed.

(** X9: an aggregate over a qualified column whose name has no dot is
    rendered as [F(table.column) as f_column]: the alias is the lower-cased
    function name, an underscore and the bare column name. *)
Theorem aggregate_alias (agg_type table column_ : string) :
  contains "." column_ = false ->
  render_aggregate (mkAggregate (upper agg_type) (qualified table column_)) =
  upper agg_type ++ "(" ++ table ++ "." ++ column_ ++ ") as "
    ++ lower agg_type ++ "_" ++ column_.
Proof.
  intros H.
  assert (Hlast : last_part (qualified table column_) = column_).
  { unfold last_part, qualified, split.
    change ("." ++ column_) with (String "."%char column_).
    exact (last_split_go "."%char table column_ "" H). }
  unfold render_aggregate; cbn [function agg_column].
  rewrite Hlast, lower_upper; unfold qualified.
  now rewrite !append_assoc.
Qed.

Lemma aggregate_alias_witness :
  render_aggregate (mkAggregate "AVG" "employees.salary") =
  "AVG(employees.salary) as avg_salary".
Proof. exact (aggregate_alias "avg" "employees" "salary" eq_refl). Defined.

(** ** The limit comes from a phrase, and from the leftmost one *)

Lemma limit_phrase_here (s ds : string) :
  limit_phrase_at s 0 ds -> Re.limit_match_here s = Some ds.
Proof.
  intros (pre & kw & ws & post & -> & Hlen & Hkw & Hws & Hsp & Hds & Hdg & Hpost).
  destruct pre; [|discriminate Hlen].
  change ("" ++ kw ++ ws ++ ds ++ post) with (kw ++ ws ++ ds ++ post).
  now apply (limit_match_here_complete kw ws ds post).
Qed.

Lemma limit_phrase_unshift (c : ascii) (s : string) (k : nat) (ds : string) :
  limit_phrase_at (String c s) (S k) ds -> limit_phrase_at s k ds.
Proof.
  intros (pre & kw & ws & post & E & Hlen & H).
  destruct pre as [|a pre]; [discriminate Hlen|].
  simpl in E, Hlen; injection E as _ ->; injection Hlen as Hlen.
  exists pre, kw, ws, post; auto.
Qed.

Lemma limit_phrase_empty (k : nat) (ds : string) : ~ limit_phrase_at "" k ds.
Proof.
  intros (pre & kw & ws & post & E & _ & Hkw & _).
  destruct pre; [|discriminate E].
  destruct Hkw as [<-|[<-|[<-|[]]]]; discriminate E.
Qed.

Lemma search_limit_none (s : string) :
  Re.search_limit s = None -> forall k ds, ~ limit_phrase_at s k ds.
Proof.
  induction s as [|c s IH]; intros H k ds; [apply limit_phrase_empty|].
  cbn [Re.search_limit] in H.
  destruct (Re.limit_match_here (String c s)) eqn:E; [discriminate|].
  destruct k as [|k]; intros Hph.
  - apply limit_phrase_here in Hph; congruence.
  - exact (IH H k ds (limit_phrase_unshift _ _ _ _ Hph)).
Qed.

Lemma search_limit_some (s ds : string) :
  Re.search_limit s = Some ds ->
  exists k,
    limit_phrase_at s k ds /\
    forall k' ds', k' < k -> ~ limit_phrase_at s k' ds'.
Proof.
  induction s as [|c s IH]; intros H.
  - simpl in H.
    destruct (Re.limit_match_here "") eqn:E; [|discriminate].
    vm_compute in E; discriminate.
  - cbn [Re.search_limit] in H.
    destruct (Re.limit_match_here (String c s)) as [d|] eqn:E.
    + injection H as ->; exists 0; split.
      * now apply limit_match_here_sound.
      * intros k' ds' Hlt; inversion Hlt.
    + destruct (IH H) as (k & Hph & Hfirst); exists (S k); split.
      * now apply limit_phrase_shift.
      * intros [|k'] ds' Hlt Hph'.
        -- apply limit_phrase_here in Hph'; congruence.
        -- apply (Hfirst k' ds'); [lia|].
           exact (limit_phrase_unshift _ _ _ _ Hph').
Qed.

(** X10: on an ASCII text the limit pass returns the intent unchanged when
    the lower-cased text has no phrase "top N", "first N" or "limit N" at
    any offset.  When the text has such a phrase, the leftmost one decides:
    within the cap of [int] the limit becomes the value of its digits and
    nothing else changes, beyond the cap the pass raises the error of
    [int]. *)
Theorem limit_only_from_phrase (doc : Doc) (components : Components) :
  let txt := lower (doc_text doc) in
  ascii_text (doc_text doc) ->
  ((forall k ds, ~ limit_phrase_at txt k ds) ->
   _extract_limits doc components = Ok components) /\
  (forall k ds,
      limit_phrase_at txt k ds ->
      exists k0 ds0,
        k0 <= k /\ limit_phrase_at txt k0 ds0 /\
        (forall k' ds', k' < k0 -> ~ limit_phrase_at txt k' ds') /\
        (String.length ds0 <= int_max_str_digits ->
         _extract_limits doc components =
         Ok (with_limit (Some (int_value ds0)) components)) /\
        (int_max_str_digits < String.length ds0 ->
         _extract_limits doc components = Raise (int_limit_error ds0))).
Proof.
  intros txt _; unfold _extract_limits; fold txt.
  destruct (Re.search_limit txt) as [ds0|] eqn:E.
  - destruct (search_limit_some txt ds0 E) as (k0 & Hph0 & Hfirst); split.
    + intros Hno; destruct (Hno k0 ds0 Hph0).
    + intros k ds Hph; exists k0, ds0.
      split.
      { destruct (Nat.le_gt_cases k0 k) as [Hle|Hlt]; [exact Hle|].
        destruct (Hfirst k ds Hlt Hph). }
      split; [exact Hph0 | split; [exact Hfirst | split]].
      * intros Hlen; now rewrite (int_ok ds0 Hlen).
      * intros Hlen; now rewrite (int_raise ds0 Hlen).
  - split; [reflexivity|].
    intros k ds Hph; destruct (search_limit_none txt E k ds Hph).
Qed.

Lemma limit_only_from_phrase_witness :
  _extract_limits (mkDoc "Top 5 employees first 3" []) empty_components =
  Ok (with_limit (Some 5%N) empty_components).
Proof.
  destruct (proj2 (limit_only_from_phrase (mkDoc "Top 5 employees first 3" [])
                     empty_components eq_refl) 16 "3")
    as (k0 & ds0 & Hle & Hph & Hfirst & Hok & _).
  - exists "top 5 employees ", "first", " ", ""; simpl; intuition discriminate.
  - assert (E : Re.search_limit (lower "Top 5 employees first 3") = Some "5")
      by (vm_compute; reflexivity).
    pose proof (search_limit_first _ _ _ Hph Hfirst) as E'.
    cbn [doc_text] in E'; rewrite E in E'; injection E' as <-.
    apply Hok; vm_compute; lia.
Defined.

(** ** Conditions are rendered one by one *)

Lemma try_patterns_operator (op phrase_ : string) (pats : list string)
  (c : Condition) :
  try_patterns op phrase_ pats = Some c -> operator c = op.
Proof.
  induction pats as [|p pats IH]; cbn [try_patterns]; [discriminate|].
  destruct (contains p phrase_); [|exact IH].
  destruct (split p phrase_) as [|a [|b [|x l]]]; try exact IH.
  now intros [= <-].
Qed.

Lemma try_operators_operator (phrase_ : string) (ops : dict (list string))
  (c : Condition) :
  try_operators phrase_ ops = Some c -> In (operator c) (dict_keys ops).
Proof.
  induction ops as [|[op pats] ops IH]; cbn [try_operators]; [discriminate|].
  destruct (try_patterns op phrase_ pats) as [c'|] eqn:E.
  - intros [= <-]; left; symmetry; exact (try_patterns_operator _ _ _ _ E).
  - intros H; right; exact (IH H).
Qed.

Lemma conditions_in_doc_operator (self : Converter) (doc : Doc) (c : Condition) :
  In c (conditions_in_doc self doc) ->
  In (operator c) (dict_keys (pat_conditions (patterns self))).
Proof.
  unfold conditions_in_doc; rewrite in_flat_map.
  intros (token & _ & H); destruct (is_trigger token); [|destruct H].
  destruct (_parse_condition_phrase self token) as [c'|] eqn:E; [|destruct H].
  destruct H as [<-|[]]; exact (try_operators_operator _ _ _ E).
Qed.

Lemma render_condition_one (c : Condition) (pieces : list string) :
  known_operator (operator c) ->
  render_condition c = Ok pieces -> exists piece, pieces = [piece].
Proof.
  unfold render_condition; intros [<-|[<-|[<-|[<-|[<-|[]]]]]]; cbn.
  1-3, 5: intros H; apply Ok_inj in H; subst; eauto.
  destruct (index (split "and" (value c)) 0); cbn [bind]; [|discriminate].
  destruct (index (split "and" (value c)) 1); cbn [bind]; [|discriminate].
  intros H; apply Ok_inj in H; subst; eauto.
Qed.

Lemma render_conditions_one_each (conds : list Condition)
  (acc pieces : list string) :
  (forall c, In c conds -> known_operator (operator c)) ->
  for_each conds
    (fun condition acc => r <- render_condition condition ;; Ok (acc ++ r)%list)
    acc = Ok pieces ->
  exists ps,
    pieces = (acc ++ ps)%list /\
    Forall2 (fun c piece => render_condition c = Ok [piece]) conds ps.
Proof.
  revert acc; induction conds as [|c conds IH]; intros acc Hknown; cbn [for_each].
  - intros H; apply Ok_inj in H; subst; exists []; split;
      [now rewrite app_nil_r | constructor].
  - destruct (render_condition c) as [r|e] eqn:E; cbn [bind]; [|discriminate].
    destruct (render_condition_one c r (Hknown c (or_introl eq_refl)) E)
      as [piece ->].
    intros H; destruct (IH _ (fun c' Hc => Hknown c' (or_intror Hc)) H)
      as (ps & -> & Hall).
    exists (piece :: ps); split; [now rewrite <- app_assoc|].
    constructor; [exact E | exact Hall].
Qed.

(** X11: with the fixed patterns no condition of a parsed intent is dropped
    when the WHERE clause is rendered: the clause is empty only when there
    is no condition, and otherwise joins with [ AND ] exactly one rendered
    piece per condition, in their order. *)
Theorem every_condition_rendered (spacy_load : string -> Doc)
  (schema : option string) (iter : pyset -> list string) (txt : string)
  (components : Components) (w : string) :
  let self := TextToSQLConverter spacy_load schema in
  _parse_query self iter txt = Ok components ->
  where_clause components = Ok w ->
  (where_ components = [] /\ w = "") \/
  exists pieces,
    Forall2 (fun c piece => render_condition c = Ok [piece])
      (where_ components) pieces /\
    w = "WHERE " ++ join " AND " pieces ++ nl.
Proof.
  intros self Hp Hw.
  destruct (parse_query_select self iter txt components Hp)
    as (_ & _ & _ & _ & Hwhere & _).
  assert (Hknown : forall c, In c (where_ components) ->
                             known_operator (operator c)).
  { intros c Hc; rewrite Hwhere in Hc.
    apply conditions_in_doc_operator in Hc; exact Hc. }
  unfold where_clause in Hw.
  destruct (where_ components) as [|c0 l] eqn:E.
  { apply Ok_inj in Hw; subst; now left. }
  right; unfold render_conditions in Hw.
  destruct (for_each (c0 :: l) _ []) as [pieces|e] eqn:Ef; cbn [bind] in Hw;
    [|discriminate].
  destruct (render_conditions_one_each _ _ _ Hknown Ef) as (ps & -> & Hall).
  cbn [app] in Hw; exists ps; split; [exact Hall|].
  inversion Hall; subst; apply Ok_inj in Hw; now subst.
Qed.

Lemma every_condition_rendered_witness :
  exists pieces,
    Forall2 (fun c piece => render_condition c = Ok [piece])
      [mkCondition "salary" "greater" "80000"] pieces /\
    "WHERE salary > 80000" ++ nl = "WHERE " ++ join " AND " pieces ++ nl.
Proof.
  destruct (every_condition_rendered
              (analysed
                 [word "employees";
                  prep "with" [word "salary"; word "over"; word "80000"]])
              None insertion_order "employees with salary over 80000"
              (mkComponents
                 (mkSelect ["employees"]
                    ["employees.employee_id"; "employees.name";
                     "employees.department"; "employees.salary";
                     "employees.hire_date"; "employees.role"; "employees.email"])
                 [] [mkCondition "salary" "greater" "80000"] [] [] [] None [])
              ("WHERE salary > 80000" ++ nl) eq_refl eq_refl)
    as [[H _]|H]; [discriminate H | exact H].
Defined.

(** ** One JOIN line per further table *)

Lemma join_clauses_each (self : Converter) (anchor : string)
  (others : list string) (acc js : list string) :
  for_each others
    (fun table acc => j <- join_clause self anchor table ;; Ok (acc ++ [j])%list)
    acc = Ok js ->
  exists lines,
    js = (acc ++ lines)%list /\
    Forall2 (fun table j => join_clause self anchor table = Ok j) others lines.
Proof.
  revert acc; induction others as [|t others IH]; intros acc; cbn [for_each].
  - intros H; apply Ok_inj in H; subst; exists []; split;
      [now rewrite app_nil_r | constructor].
  - destruct (join_clause self anchor t) as [j|e] eqn:E; cbn [bind];
      [|discriminate].
    intros H; destruct (IH _ H) as (lines & -> & Hall).
    exists (j :: lines); split; [now rewrite <- app_assoc|].
    constructor; [exact E | exact Hall].
Qed.

Lemma join_clause_ok_inv (self : Converter) (anchor table j : string) :
  join_clause self anchor table = Ok j -> join_line self anchor table j.
Proof.
  unfold join_clause, getitem, index, join_line.
  destruct (dict_get (table_relationships self) anchor) as [rels|] eqn:Hr;
    cbn [bind]; [|discriminate].
  destruct (dict_get rels table) as [join_info|] eqn:Hj; cbn [bind];
    [|discriminate].
  destruct (keys join_info) as [|k0 [|k1 rest]] eqn:Hk; cbn [nth_error bind];
    try discriminate.
  intros H; apply Ok_inj in H; subst j.
  exists rels, join_info, k0, k1, rest; auto.
Qed.

(** X12: a query returned for a parsed intent is, stripped, the SELECT line,
    the FROM line of the anchor, then exactly one JOIN line for every other
    table of the intent, in iteration order and on the declared keys, then
    the remaining clauses; the tables are distinct, so no table is joined
    twice and the anchor is never joined to itself. *)
Theorem one_join_per_table (self : Converter) (iter : pyset -> list string)
  (txt : string) (components : Components) (sql : string) :
  iterates iter ->
  _parse_query self iter txt = Ok components ->
  _build_sql_query self iter components = Ok sql ->
  exists anchor others lines w,
    iter (tables (select components)) = anchor :: others /\
    NoDup (anchor :: others) /\
    Forall2 (join_line self anchor) others lines /\
    where_clause components = Ok w /\
    sql = strip (select_clause iter components ++ "FROM " ++ anchor ++ nl
                   ++ String.concat "" lines ++ w ++ group_by_clause components
                   ++ having_clause components ++ order_by_clause components
                   ++ limit_clause components).
Proof.
  intros Hiter Hp Hb.
  destruct (parse_query_tables self iter txt components Hiter Hp) as (_ & Hnd & _).
  apply build_ok_shape in Hb; destruct Hb as (anchor & js & w & Ha & Hj & Hw & Hsql).
  destruct (iter (tables (select components))) as [|a others] eqn:E;
    [discriminate Ha|].
  cbn in Ha; apply Ok_inj in Ha; subst a; cbn [tl] in Hj.
  exists anchor, others, js, w; split; [reflexivity|].
  split.
  - rewrite <- E.
    exact (Permutation_NoDup (Permutation_sym (Hiter _)) Hnd).
  - split; [|split; [exact Hw | exact Hsql]].
    unfold join_clauses in Hj.
    destruct (join_clauses_each self anchor others [] js Hj) as (lines & -> & H).
    cbn [List.app]; revert H; apply Forall2_impl.
    intros t j; apply join_clause_ok_inv.
Qed.

Lemma one_join_per_table_witness :
  let self := converter [word "employees"; word "departments"] in
  let c := plain_intent ["employees"; "departments"] ["employees.department"] in
  exists anchor others lines w,
    insertion_order (tables (select c)) = anchor :: others /\
    NoDup (anchor :: others) /\
    Forall2 (join_line self anchor) others lines /\
    where_clause c = Ok w /\
    "SELECT employees.department" ++ nl ++ "FROM employees" ++ nl
      ++ "JOIN departments ON employees.department = departments.name" =
    strip (select_clause insertion_order c ++ "FROM " ++ anchor ++ nl
             ++ String.concat "" lines ++ w ++ group_by_clause c
             ++ having_clause c ++ order_by_clause c ++ limit_clause c).
Proof.
  intros self c.
  exact (one_join_per_table self insertion_order "employees departments" c
           ("SELECT employees.department" ++ nl ++ "FROM employees" ++ nl
              ++ "JOIN departments ON employees.department = departments.name")
           iterates_insertion_order eq_refl eq_refl).
Defined.

(** ** The caller: history and database *)

Lemma history_list_append (item : HistoryItem) (w : World) :
  history_list (append_history item w) = (history_list w ++ [item])%list.
Proof. unfold history_list, append_history; cbn; now destruct (query_history w). Qed.

Section CallerFacts.

Variable Frame : Type.
Variable db_execute_query : string -> Frame + string.
Variable show_results : Frame -> option string.
Variable self : Converter.
Variable iter : pyset -> list string.

Lemma history_consistent_failed (now q msg : string) (w : World) :
  history_consistent w ->
  history_consistent (append_history (failed now q msg) w).
Proof.
  intros H item; rewrite history_list_append, in_app_iff.
  intros [Hin|[<-|[]]]; [exact (H item Hin)|].
  cbn; split; [reflexivity | discriminate].
Qed.

Lemma history_consistent_sent (s : string) (w : World) :
  history_consistent w ->
  history_consistent (mkWorld (query_history w) (sent w ++ [s])%list).
Proof.
  intros H item Hin; specialize (H item Hin).
  destruct (success item); [|exact H].
  destruct H as [(s' & Hs & Hsent) He]; split; [|exact He].
  exists s'; split; [exact Hs|]; cbn; apply in_or_app; now left.
Qed.

(** X13: [execute_query] appends exactly one entry, for the question asked,
    to the history and keeps it consistent: an entry reports success only
    with the SQL that was handed to the database; when the translation
    raises, nothing is handed to the database and the entry carries the
    text of the error. *)
Theorem execute_query_keeps_history (now q : string) (w : World) :
  history_consistent w ->
  let w' := execute_query Frame db_execute_query show_results self iter now q w in
  history_consistent w' /\
  (exists item,
      history_list w' = (history_list w ++ [item])%list /\
      query item = q /\ timestamp item = now) /\
  (forall e,
      convert_to_sql self iter q = Raise e ->
      sent w' = sent w /\
      w' = append_history (failed now q (str_exc e)) w) /\
  (forall s,
      convert_to_sql self iter q = Ok s -> sent w' = (sent w ++ [s])%list).
Proof.
  intros H w'; unfold w', execute_query.
  destruct (convert_to_sql self iter q) as [s|e].
  - set (w1 := mkWorld (query_history w) (sent w ++ [s])%list).
    assert (H1 : history_consistent w1) by now apply history_consistent_sent.
    assert (Hl : history_list w1 = history_list w) by reflexivity.
    destruct (db_execute_query s) as [rows|msg];
      [destruct (show_results rows) as [msg|]|].
    + split; [now apply history_consistent_failed|].
      split; [|split; [discriminate | now intros s' [= <-]]].
      eexists; rewrite history_list_append, Hl; cbn; eauto.
    + split.
      * intros item; rewrite history_list_append, in_app_iff.
        intros [Hin|[<-|[]]]; [exact (H1 item Hin)|].
        cbn; split; [|reflexivity].
        exists s; split; [reflexivity|]; apply in_or_app; right; now left.
      * split; [|split; [discriminate | now intros s' [= <-]]].
        eexists; rewrite history_list_append, Hl; cbn; eauto.
    + split; [now apply history_consistent_failed|].
      split; [|split; [discriminate | now intros s' [= <-]]].
      eexists; rewrite history_list_append, Hl; cbn; eauto.
  - split; [now apply history_consistent_failed|].
    split; [|split; [now intros e' [= <-] | discriminate]].
    eexists; rewrite history_list_append; cbn; eauto.
Qed.

End CallerFacts.

Lemma execute_query_keeps_history_witness :
  history_list
    (execute_query unit (fun _ => inl tt) (fun _ => None)
       (converter [word "hello"]) insertion_order "12:00" "hello"
       (mkWorld None [])) =
  [mkHistoryItem "12:00" "hello" None
     (Some "Failed to convert text to SQL: list index out of range") false].
Proof.
  destruct (execute_query_keeps_history unit (fun _ => inl tt) (fun _ => None)
              (converter [word "hello"]) insertion_order "12:00" "hello"
              (mkWorld None [])) as (_ & _ & Hraise & _).
  - intros item [].
  - destruct (Hraise _ eq_refl) as [_ ->]; reflexivity.
Defined.

(** ** The history pane *)

Lemma skipn_next {A : Type} (k : nat) (l : list A) :
  k < List.length l -> exists x, skipn k l = x :: skipn (S k) l.
Proof.
  revert l; induction k as [|k IH]; intros [|a l] Hlen; simpl in Hlen; try lia.
  - exists a; reflexivity.
  - destruct (IH l ltac:(lia)) as [x Hx]; exists x; exact Hx.
Qed.

Lemma last_items_snoc {A : Type} (l : list A) (x : A) :
  List.rev (last_items 5 (l ++ [x])) = x :: firstn 4 (List.rev (last_items 5 l)).
Proof.
  unfold last_items; rewrite length_app; cbn [List.length].
  destruct (Nat.le_gt_cases (List.length l) 4) as [Hle|Hgt].
  - replace (List.length l + 1 - 5) with 0 by lia.
    replace (List.length l - 5) with 0 by lia.
    rewrite !skipn_O, rev_app_distr; cbn [List.rev app].
    now rewrite firstn_all2 by (rewrite length_rev; lia).
  - replace (List.length l + 1 - 5) with (S (List.length l - 5)) by lia.
    destruct (skipn_next (List.length l - 5) l ltac:(lia)) as [y Hy].
    rewrite skipn_app, Hy.
    replace (S (List.length l - 5) - List.length l) with 0 by lia.
    rewrite skipn_O, rev_app_distr; cbn [List.rev app]; f_equal.
    rewrite firstn_app.
    assert (Hlen : List.length (List.rev (skipn (S (List.length l - 5)) l)) = 4)
      by (rewrite length_rev, length_skipn; lia).
    rewrite Hlen, firstn_all2 by lia.
    now rewrite Nat.sub_diag, app_nil_r.
Qed.

(** X14: the history pane shows at most five entries; appending an entry
    puts it first and keeps the four newest of those shown before, so after
    every [execute_query] the pane starts with the entry of that question. *)
Theorem history_pane_newest_first (Frame : Type)
  (db_execute_query : string -> Frame + string)
  (show_results : Frame -> option string) (self : Converter)
  (iter : pyset -> list string) (now q : string) (item : HistoryItem)
  (w : World) :
  List.length (shown_history w) <= 5 /\
  shown_history (append_history item w) = item :: firstn 4 (shown_history w) /\
  exists entry older,
    shown_history
      (execute_query Frame db_execute_query show_results self iter now q w) =
    entry :: older /\
    query entry = q /\ timestamp entry = now.
Proof.
  assert (Happend : forall i w0,
    shown_history (append_history i w0) = i :: firstn 4 (shown_history w0)).
  { intros i w0; unfold shown_history, append_history; cbn.
    destruct (query_history w0) as [l|]; [apply last_items_snoc | reflexivity]. }
  split; [|split; [apply Happend|]].
  - unfold shown_history; destruct (query_history w) as [l|]; [|simpl; lia].
    unfold last_items; rewrite length_rev, length_skipn; lia.
  - unfold execute_query.
    destruct (convert_to_sql self iter q) as [s|e];
      [destruct (db_execute_query s) as [rows|msg];
       [destruct (show_results rows) as [msg|]|]|];
      rewrite Happend; eexists _, _; cbn; eauto.
Qed.

(** ** Token order *)

(** X15: which tables and columns the entity scan identifies depends only
    on which tokens occur, not on their order or their repetition. *)
Theorem entities_ignore_token_order (self : Converter) (d1 d2 : Doc) :
  (forall token, In token (doc_tokens d1) <-> In token (doc_tokens d2)) ->
  (forall t,
      In t (tables (scan_entities self d1 (mkSelect [] []))) <->
      In t (tables (scan_entities self d2 (mkSelect [] [])))) /\
  (forall q,
      In q (columns (scan_entities self d1 (mkSelect [] []))) <->
      In q (columns (scan_entities self d2 (mkSelect [] [])))).
Proof.
  intros Hsame; split; intros x.
  - rewrite !scan_entities_tables; split;
      (intros [H|(token & Hk & Hh)]; [now left | right; exists token]);
      (split; [now apply Hsame | exact Hh]).
  - rewrite !scan_entities_columns; split;
      (intros [H|(token & Hk & Hh)]; [now left | right; exists token]);
      (split; [now apply Hsame | exact Hh]).
Qed.

Lemma entities_ignore_token_order_witness :
  In "departments"
    (tables
       (scan_entities (converter [])
          (mkDoc "" [word "departments"; word "salary"; word "salary"])
          (mkSelect [] []))).
Proof.
  assert (Hsame : forall token,
             In token [word "salary"; word "departments"] <->
             In token [word "departments"; word "salary"; word "salary"]).
  { intros token; split; intros H; repeat destruct H as [H|H];
      subst; simpl; auto. }
  refine (proj1 (proj1 (entities_ignore_token_order (converter [])
                          (mkDoc "" [word "salary"; word "departments"])
                          (mkDoc "" [word "departments"; word "salary"; word "salary"])
                          Hsame) "departments") _).
  vm_compute; right; left; reflexivity.
Defined.
